(** * LegalGrpcWebClient: the multi-session streaming client of
      sveltekit-frontend/src/lib/wasm/legal_grpc_client.cpp

    The class is embedded as a record of its fields together with the part of
    its surroundings that its methods act on: the calls opened on the stub,
    the detached threads that have been started and have not run yet, and the
    trace of every call that leaves the object (transport calls, JavaScript
    callbacks, console output).

    Every method that touches [active_streams_] takes [streams_mutex_] for its
    whole body ([std::lock_guard] on its first line), [readStreamResponses]
    included.  Such bodies therefore execute one after the other, and the
    embedding runs each of them as one function from state to state; the order
    in which the caller's calls and the detached threads get to run is left
    open (see [Call] and [run]).  Who holds the mutex, and who has to wait
    for it, is told apart in [Locked], where a reader goes through its loop
    one message at a time. *)

From Stdlib Require Import ZArith SpecFloat.
From stdpp Require Import gmap strings list fin_maps pretty.


(** ** Messages *)

(** A C++ [float], as the value it denotes. *)
Definition float : Type := spec_float.

(** An [emscripten::val]: a handle on a JavaScript value. *)
Definition val : Type := nat.

(** Modelled from the spec: the message classes come from
    legal_cuda_streaming.grpc.pb.h, which is generated from the protocol
    definition and is not part of the repository (the spec calls the wire
    schema external).  Each record has the fields that the client sets or
    reads, and a sub-message that has not been made present is [None]. *)
Record CudaOptions := {
  use_tensor_cores : bool;
  batch_size : Z;
  enable_memory_pool : bool }.

Record CudaRequest := {
  cq_session_id : string;
  cq_operation_type : string;
  cq_raw_text : string;
  cq_is_final_chunk : bool;
  cq_cuda_options : option CudaOptions;
  cq_embedding_vector : list float }.

Record CudaMetrics := {
  total_processing_time_us : Z;
  gpu_utilization : float;
  gpu_model : string }.

Record CudaResponse := {
  cr_session_id : string;
  cr_operation_type : string;
  cr_status : Z;
  computed_embedding : list float;
  cuda_metrics : option CudaMetrics }.

Record ProcessingFlags := {
  extract_entities : bool;
  generate_summary : bool;
  compute_embeddings : bool;
  analyze_sentiment : bool;
  detect_clauses : bool }.

Record DocumentRequest := {
  dq_document_id : string;
  dq_document_content : string;
  dq_document_type : string;
  dq_flags : option ProcessingFlags }.

Record DocumentResponse := { dr_document_id : string }.

Record SearchRequest := {
  sq_query : string;
  sq_collection_name : string;
  sq_top_k : Z;
  sq_enable_reranking : bool;
  sq_has_filters : bool }.

Record SearchResponse := { sr_query_id : string }.

Record SimilarityMetrics := {
  factual_similarity : bool;
  legal_precedent_similarity : bool;
  outcome_similarity : bool;
  procedural_similarity : bool }.

Record SimilarityRequest := {
  mq_base_case_id : string;
  mq_compare_case_ids : list string;
  mq_requested_metrics : option SimilarityMetrics }.

Record SimilarityResponse := { mr_base_case_id : string }.

(** [grpc::Status], as far as the client looks at it. *)
Record Status := { ok : bool; error_message : string }.

(** ** What leaves the object *)

(** Streams are numbered in the order in which they are opened on the stub. *)
Inductive Event :=
  | EvCreateCustomChannel (endpoint : string)
  | EvBidirectionalLegalStream (h : nat)
  | EvProcessLegalDocument (h : nat) (request : DocumentRequest)
  | EvStreamSemanticSearch (h : nat) (request : SearchRequest)
  | EvAnalyzeCaseSimilarity (h : nat) (request : SimilarityRequest)
  | EvWrite (h : nat) (request : CudaRequest)
  | EvWritesDone (h : nat)
  | EvRead (h : nat) (got : bool)
  | EvFinish (h : nat)
  | EvResponseCallback (cb : val) (json : string)
  | EvErrorCallback (cb : val) (msg : string)
  | EvCompletionCallback (cb : val)
  | EvJsCallback (cb : val) (object : val)
  | EvConsoleLog (msg : string)
  | EvConsoleError (msg : string).

(** The remote side and the C++ runtime, as the client sees them.  The answer
    of a write or of [Finish] may depend on everything that has happened so
    far.  The messages that the remote sends on a stream are a list: [Read]
    returns false when it is exhausted, so a reader loop always comes to its
    end here; a remote that sends for ever keeps the real loop turning and
    nothing after the loop happens, which is outside what is modelled.
    [env_to_string] is [std::to_string] on a [float]; [env_json_parse] is
    [JSON.parse] of the JavaScript side: the value for a text that parses,
    and nothing for a text on which it throws. *)
Record Env := {
  env_write : nat → CudaRequest → list Event → bool;
  env_finish : nat → list Event → Status;
  env_responses : nat → list CudaResponse;
  env_document_responses : nat → list DocumentResponse;
  env_search_responses : nat → list SearchResponse;
  env_similarity_responses : nat → list SimilarityResponse;
  env_to_string : float → string;
  env_json_parse : string → option val }.

(** gRPC's synchronous stub hands out a stream object whether or not the call
    could be established; a call that could not be is one on which every
    write fails, nothing is ever read and the final status is not OK. *)
Definition open_failed (E : Env) (h : nat) : Prop :=
  (∀ request tr, env_write E h request tr = false) ∧
  env_responses E h = [] ∧
  (∀ tr, ok (env_finish E h tr) = false).

(** ** The object *)

Record StreamContext := {
  context : nat;
  stream : nat;
  active : bool;
  session_id : string }.

(** The body of a detached [std::thread], with what its lambda captured. *)
Inductive Thread :=
  | ReadStreamThread (session_id : string)
  | DocumentThread (reader : nat) (progress_callback : val)
  | SearchThread (reader : nat) (results_callback : val)
  | SimilarityThread (reader : nat) (similarity_callback : val).

Record State := {
  (* the fields of LegalGrpcWebClient *)
  connected_ : bool;
  server_endpoint_ : string;
  response_callback_ : option val;
  error_callback_ : option val;
  completion_callback_ : option val;
  active_streams_ : gmap string StreamContext;
  (* its surroundings *)
  calls : nat;
  consumed : gmap nat nat;
  threads : list Thread;
  trace : list Event }.

Definition set_response_callback (cb : option val) (s : State) : State :=
  {| connected_ := connected_ s; server_endpoint_ := server_endpoint_ s;
     response_callback_ := cb; error_callback_ := error_callback_ s;
     completion_callback_ := completion_callback_ s;
     active_streams_ := active_streams_ s; calls := calls s;
     consumed := consumed s; threads := threads s; trace := trace s |}.

Definition set_error_callback (cb : option val) (s : State) : State :=
  {| connected_ := connected_ s; server_endpoint_ := server_endpoint_ s;
     response_callback_ := response_callback_ s; error_callback_ := cb;
     completion_callback_ := completion_callback_ s;
     active_streams_ := active_streams_ s; calls := calls s;
     consumed := consumed s; threads := threads s; trace := trace s |}.

Definition set_completion_callback (cb : option val) (s : State) : State :=
  {| connected_ := connected_ s; server_endpoint_ := server_endpoint_ s;
     response_callback_ := response_callback_ s;
     error_callback_ := error_callback_ s; completion_callback_ := cb;
     active_streams_ := active_streams_ s; calls := calls s;
     consumed := consumed s; threads := threads s; trace := trace s |}.

Definition set_active_streams (m : gmap string StreamContext) (s : State)
  : State :=
  {| connected_ := connected_ s; server_endpoint_ := server_endpoint_ s;
     response_callback_ := response_callback_ s;
     error_callback_ := error_callback_ s;
     completion_callback_ := completion_callback_ s;
     active_streams_ := m; calls := calls s;
     consumed := consumed s; threads := threads s; trace := trace s |}.

Definition set_threads (l : list Thread) (s : State) : State :=
  {| connected_ := connected_ s; server_endpoint_ := server_endpoint_ s;
     response_callback_ := response_callback_ s;
     error_callback_ := error_callback_ s;
     completion_callback_ := completion_callback_ s;
     active_streams_ := active_streams_ s; calls := calls s;
     consumed := consumed s; threads := l; trace := trace s |}.

(** One more call on the outside. *)
Definition emit (e : Event) (s : State) : State :=
  {| connected_ := connected_ s; server_endpoint_ := server_endpoint_ s;
     response_callback_ := response_callback_ s;
     error_callback_ := error_callback_ s;
     completion_callback_ := completion_callback_ s;
     active_streams_ := active_streams_ s; calls := calls s;
     consumed := consumed s; threads := threads s;
     trace := trace s ++ [e] |}.

(** The stub opens one more call; its number is [calls s] before. *)
Definition opened (s : State) : State :=
  {| connected_ := connected_ s; server_endpoint_ := server_endpoint_ s;
     response_callback_ := response_callback_ s;
     error_callback_ := error_callback_ s;
     completion_callback_ := completion_callback_ s;
     active_streams_ := active_streams_ s; calls := S (calls s);
     consumed := consumed s; threads := threads s; trace := trace s |}.

(** One more message of stream [h] has been taken by [Read]. *)
Definition took (h : nat) (s : State) : State :=
  {| connected_ := connected_ s; server_endpoint_ := server_endpoint_ s;
     response_callback_ := response_callback_ s;
     error_callback_ := error_callback_ s;
     completion_callback_ := completion_callback_ s;
     active_streams_ := active_streams_ s; calls := calls s;
     consumed := <[h := S (default 0 (consumed s !! h))]> (consumed s);
     threads := threads s; trace := trace s |}.

(** [std::thread(...).detach()]: the body runs at some later point. *)
Definition detach (t : Thread) (s : State) : State :=
  set_threads (threads s ++ [t]) s.

(** What the remote has sent on stream [h] and no [Read] has taken yet. *)
Definition unread (E : Env) (h : nat) (s : State) : list CudaResponse :=
  drop (default 0 (consumed s !! h)) (env_responses E h).

(** ** Strings that cross into JavaScript *)

(** What [UTF8ToString] reads of a C++ string that is passed as [c_str()]:
    the bytes before the first NUL. *)
Fixpoint c_str (s : string) : string :=
  match s with
  | EmptyString => EmptyString
  | String c rest =>
      if Ascii.eqb c Ascii.zero then EmptyString else String c (c_str rest)
  end.

(** ** JSON conversion helpers *)

(** The double-quote character of the C++ literals. *)
Definition dq : string := String (Ascii.ascii_of_nat 34) EmptyString.

(** The body of the loop over [computed_embedding]: a comma before every
    element but the first. *)
Fixpoint embeddings_to_json (E : Env) (first : bool) (l : list float) : string :=
  match l with
  | [] => EmptyString
  | x :: rest =>
      (if first then EmptyString else ",") +:+ env_to_string E x
        +:+ embeddings_to_json E false rest
  end.

Definition cudaResponseToJson (E : Env) (response : CudaResponse) : string :=
  let json := "{" in
  let json := json +:+ (dq +:+ "session_id" +:+ dq +:+ ":" +:+ dq
                          +:+ cr_session_id response +:+ dq +:+ ",") in
  let json := json +:+ (dq +:+ "operation_type" +:+ dq +:+ ":" +:+ dq
                          +:+ cr_operation_type response +:+ dq +:+ ",") in
  let json := json +:+ (dq +:+ "status" +:+ dq +:+ ":"
                          +:+ pretty (cr_status response) +:+ ",") in
  let json :=
    if bool_decide (0 < length (computed_embedding response)) then
      json +:+ (dq +:+ "embeddings" +:+ dq +:+ ":[")
           +:+ embeddings_to_json E true (computed_embedding response)
           +:+ "],"
    else json in
  let json :=
    match cuda_metrics response with
    | Some metrics =>
        json +:+ (dq +:+ "performance" +:+ dq +:+ ":{")
             +:+ (dq +:+ "processing_time_us" +:+ dq +:+ ":"
                    +:+ pretty (total_processing_time_us metrics) +:+ ",")
             +:+ (dq +:+ "gpu_utilization" +:+ dq +:+ ":"
                    +:+ env_to_string E (gpu_utilization metrics) +:+ ",")
             +:+ (dq +:+ "gpu_model" +:+ dq +:+ ":" +:+ dq
                    +:+ gpu_model metrics +:+ dq)
             +:+ "}"
    | None => json
    end in
  json +:+ "}".

Definition documentResponseToJson (response : DocumentResponse) : string :=
  "{" +:+ dq +:+ "document_id" +:+ dq +:+ ":" +:+ dq
      +:+ dr_document_id response +:+ dq +:+ "}".

Definition searchResponseToJson (response : SearchResponse) : string :=
  "{" +:+ dq +:+ "query_id" +:+ dq +:+ ":" +:+ dq
      +:+ sr_query_id response +:+ dq +:+ "}".

Definition similarityResponseToJson (response : SimilarityResponse) : string :=
  "{" +:+ dq +:+ "base_case_id" +:+ dq +:+ ":" +:+ dq
      +:+ mr_base_case_id response +:+ dq +:+ "}".

(** ** Construction and callbacks *)

(** The constructor: [connected_] starts as false in its member initialiser
    and is set once the channel and the stub exist.  [CreateCustomChannel]
    does not connect, and nothing is read back from the channel. *)
Definition LegalGrpcWebClient (endpoint : string) : State :=
  {| connected_ := true; server_endpoint_ := endpoint;
     response_callback_ := None; error_callback_ := None;
     completion_callback_ := None; active_streams_ := ∅;
     calls := 0; consumed := ∅; threads := [];
     trace := [EvCreateCustomChannel endpoint;
               EvConsoleLog ("🚀 Legal gRPC-Web Client initialized for endpoint: "
                             +:+ c_str endpoint)] |}.

Definition setResponseCallback (callback : val) (s : State) : State :=
  set_response_callback (Some callback) s.

Definition setErrorCallback (callback : val) (s : State) : State :=
  set_error_callback (Some callback) s.

Definition setCompletionCallback (callback : val) (s : State) : State :=
  set_completion_callback (Some callback) s.

(** ** Streaming sessions *)

(** The stream is opened, the reader thread is started and the context is
    stored under the id, whatever was stored there before: [operator[]]
    followed by move assignment drops the context that it replaces.  The
    method returns its argument on every path. *)
Definition startBidirectionalStream (session_id : string) (s : State)
  : string * State :=
  let h := calls s in
  let context :=
    {| context := h; stream := h; active := true; session_id := session_id |} in
  let s := emit (EvBidirectionalLegalStream h) (opened s) in
  let s := detach (ReadStreamThread session_id) s in
  let s := set_active_streams (<[session_id := context]> (active_streams_ s)) s in
  let s := emit (EvConsoleLog ("📡 Started bidirectional stream for session: "
                               +:+ c_str session_id)) s in
  (session_id, s).

Definition embedding_request (session_id text : string) (is_final : bool)
  : CudaRequest :=
  {| cq_session_id := session_id; cq_operation_type := "embed";
     cq_raw_text := text; cq_is_final_chunk := is_final;
     cq_cuda_options :=
       Some {| use_tensor_cores := true; batch_size := 1;
               enable_memory_pool := true |};
     cq_embedding_vector := [] |}.

Definition sendEmbeddingRequest (E : Env) (session_id text : string)
    (is_final : bool) (s : State) : bool * State :=
  match active_streams_ s !! session_id with
  | None => (false, s)
  | Some it =>
      if negb (active it) then (false, s)
      else
        let request := embedding_request session_id text is_final in
        let success := env_write E (stream it) request (trace s) in
        let s := emit (EvWrite (stream it) request) s in
        let s := if is_final then emit (EvWritesDone (stream it)) s else s in
        (success, s)
  end.

Definition search_request (session_id : string) (embedding_vector : list float)
    (is_final : bool) : CudaRequest :=
  {| cq_session_id := session_id; cq_operation_type := "search";
     cq_raw_text := EmptyString; cq_is_final_chunk := is_final;
     cq_cuda_options := None;
     cq_embedding_vector := embedding_vector |}.

Definition sendSearchRequest (E : Env) (session_id : string)
    (embedding_vector : list float) (is_final : bool) (s : State)
  : bool * State :=
  match active_streams_ s !! session_id with
  | None => (false, s)
  | Some it =>
      if negb (active it) then (false, s)
      else
        let request := search_request session_id embedding_vector is_final in
        let success := env_write E (stream it) request (trace s) in
        (success, emit (EvWrite (stream it) request) s)
  end.

Definition deactivate (c : StreamContext) : StreamContext :=
  {| context := context c; stream := stream c; active := false;
     session_id := session_id c |}.

Definition closeStream (E : Env) (session_id : string) (s : State)
  : bool * State :=
  match active_streams_ s !! session_id with
  | Some it =>
      let s := set_active_streams
                 (<[session_id := deactivate it]> (active_streams_ s)) s in
      let s := emit (EvWritesDone (stream it)) s in
      let status := env_finish E (stream it) (trace s) in
      let s := emit (EvFinish (stream it)) s in
      let s := set_active_streams (delete session_id (active_streams_ s)) s in
      let s := emit (EvConsoleLog ("🔌 Closed stream for session: "
                                   +:+ c_str session_id)) s in
      (ok status, s)
  | None => (false, s)
  end.

Definition isConnected (s : State) : bool := connected_ s.

(** The loop of [readStreamResponses].  The mutex is held from before the
    lookup until the method returns, so the context under [it] and the
    callback fields are the same in every turn. *)
Fixpoint read_loop (E : Env) (it : StreamContext) (incoming : list CudaResponse)
    (s : State) : State :=
  if active it then
    match incoming with
    | [] => emit (EvRead (stream it) false) s
    | response :: rest =>
        let s := took (stream it) (emit (EvRead (stream it) true) s) in
        let s :=
          match response_callback_ s with
          | Some callback =>
              emit (EvResponseCallback callback (cudaResponseToJson E response)) s
          | None => s
          end in
        read_loop E it rest s
    end
  else s.

Definition readStreamResponses (E : Env) (session_id : string) (s : State)
  : State :=
  match active_streams_ s !! session_id with
  | None => s
  | Some it =>
      let s := read_loop E it (unread E (stream it) s) s in
      let status := env_finish E (stream it) (trace s) in
      let s := emit (EvFinish (stream it)) s in
      let s :=
        if negb (ok status) then
          match error_callback_ s with
          | Some callback =>
              emit (EvErrorCallback callback (error_message status)) s
          | None => s
          end
        else s in
      match completion_callback_ s with
      | Some callback => emit (EvCompletionCallback callback) s
      | None => s
      end
  end.

(** ** One-shot jobs *)

Definition document_request (document_id document_content document_type : string)
  : DocumentRequest :=
  {| dq_document_id := document_id;
     dq_document_content := document_content;
     dq_document_type := document_type;
     dq_flags :=
       Some {| extract_entities := true;
               generate_summary := true;
               compute_embeddings := true;
               analyze_sentiment := true;
               detect_clauses := bool_decide (document_type = "contract") |} |}.

Definition processLegalDocument (document_id document_content document_type : string)
    (progress_callback : val) (s : State) : State :=
  let request := document_request document_id document_content document_type in
  let reader := calls s in
  let s := emit (EvProcessLegalDocument reader request) (opened s) in
  detach (DocumentThread reader progress_callback) s.

Definition search_query (query collection_name : string) (top_k : Z)
  : SearchRequest :=
  {| sq_query := query; sq_collection_name := collection_name;
     sq_top_k := top_k; sq_enable_reranking := true;
     sq_has_filters := true |}.

Definition performSemanticSearch (query collection_name : string) (top_k : Z)
    (results_callback : val) (s : State) : State :=
  let request := search_query query collection_name top_k in
  let reader := calls s in
  let s := emit (EvStreamSemanticSearch reader request) (opened s) in
  detach (SearchThread reader results_callback) s.

Definition similarity_request (base_case_id : string)
    (compare_case_ids : list string) : SimilarityRequest :=
  {| mq_base_case_id := base_case_id;
     mq_compare_case_ids := compare_case_ids;
     mq_requested_metrics :=
       Some {| factual_similarity := true;
               legal_precedent_similarity := true;
               outcome_similarity := true;
               procedural_similarity := true |} |}.

Definition analyzeCaseSimilarity (base_case_id : string)
    (compare_case_ids : list string) (similarity_callback : val) (s : State)
  : State :=
  let request := similarity_request base_case_id compare_case_ids in
  let reader := calls s in
  let s := emit (EvAnalyzeCaseSimilarity reader request) (opened s) in
  detach (SimilarityThread reader similarity_callback) s.

(** The three job threads run the same loop on their own reader.  For
    every response that is read, the [EM_ASM] block reads its JSON text as a
    C string, parses it with [JSON.parse] and calls the JavaScript function
    that the job was given with the value.  When [JSON.parse] throws, the
    function is not called and the exception leaves the body of the thread
    through its C++ frames: nothing that comes after it in the body runs.
    The loop gives the state and whether the body goes on after it.  The
    threads take no lock and touch no field of the object.

    The [ClientContext] of a job is a local of the method that starts the
    job and is gone when that method returns; what a read on the job's reader
    yields after that is for the transport to say, which is what the
    responses of the environment stand for. *)
Fixpoint reader_loop {R : Type} (E : Env) (to_json : R → string) (reader : nat)
    (callback : val) (incoming : list R) (s : State) : State * bool :=
  match incoming with
  | [] => (emit (EvRead reader false) s, true)
  | response :: rest =>
      let s := emit (EvRead reader true) s in
      match env_json_parse E (c_str (to_json response)) with
      | Some object =>
          reader_loop E to_json reader callback rest
            (emit (EvJsCallback callback object) s)
      | None => (s, false)
      end
  end.

(** After the loop: the status is fetched, and a status that is not OK is
    written to the console with the job's prefix. *)
Definition reader_finish (E : Env) (reader : nat) (failed : string) (s : State)
  : State :=
  let status := env_finish E reader (trace s) in
  let s := emit (EvFinish reader) s in
  if negb (ok status)
  then emit (EvConsoleError (failed +:+ c_str (error_message status))) s
  else s.

(** The body of a job thread. *)
Definition job_thread {R : Type} (E : Env) (to_json : R → string)
    (reader : nat) (callback : val) (incoming : list R) (failed : string)
    (s : State) : State :=
  let r := reader_loop E to_json reader callback incoming s in
  if r.2 then reader_finish E reader failed r.1 else r.1.

Definition document_thread (E : Env) (reader : nat) (progress_callback : val)
    (s : State) : State :=
  job_thread E documentResponseToJson reader progress_callback
    (env_document_responses E reader) "Document processing failed: " s.

Definition search_thread (E : Env) (reader : nat) (results_callback : val)
    (s : State) : State :=
  job_thread E searchResponseToJson reader results_callback
    (env_search_responses E reader) "Semantic search failed: " s.

Definition similarity_thread (E : Env) (reader : nat) (similarity_callback : val)
    (s : State) : State :=
  job_thread E similarityResponseToJson reader similarity_callback
    (env_similarity_responses E reader) "Case similarity analysis failed: " s.

(** ** Runs *)

Definition run_thread (E : Env) (t : Thread) (s : State) : State :=
  match t with
  | ReadStreamThread session_id => readStreamResponses E session_id s
  | DocumentThread reader callback => document_thread E reader callback s
  | SearchThread reader callback => search_thread E reader callback s
  | SimilarityThread reader callback => similarity_thread E reader callback s
  end.

(** The [i]-th of the detached threads gets to run, from its first statement
    to its last; nothing happens when there is no such thread. *)
Definition schedule (E : Env) (i : nat) (s : State) : State :=
  match threads s !! i with
  | Some t => run_thread E t (set_threads (delete i (threads s)) s)
  | None => s
  end.

(** What can happen to the object: a call of one of the methods bound in
    [EMSCRIPTEN_BINDINGS], or a detached thread being run. *)
Inductive Call :=
  | CallSetResponseCallback (callback : val)
  | CallSetErrorCallback (callback : val)
  | CallSetCompletionCallback (callback : val)
  | CallStartBidirectionalStream (session_id : string)
  | CallSendEmbeddingRequest (session_id text : string) (is_final : bool)
  | CallSendSearchRequest (session_id : string) (embedding_vector : list float)
      (is_final : bool)
  | CallProcessLegalDocument (document_id document_content document_type : string)
      (progress_callback : val)
  | CallPerformSemanticSearch (query collection_name : string) (top_k : Z)
      (results_callback : val)
  | CallAnalyzeCaseSimilarity (base_case_id : string)
      (compare_case_ids : list string) (similarity_callback : val)
  | CallCloseStream (session_id : string)
  | CallIsConnected
  | Scheduled (i : nat).

Definition step (E : Env) (s : State) (c : Call) : State :=
  match c with
  | CallSetResponseCallback cb => setResponseCallback cb s
  | CallSetErrorCallback cb => setErrorCallback cb s
  | CallSetCompletionCallback cb => setCompletionCallback cb s
  | CallStartBidirectionalStream id => (startBidirectionalStream id s).2
  | CallSendEmbeddingRequest id text is_final =>
      (sendEmbeddingRequest E id text is_final s).2
  | CallSendSearchRequest id v is_final =>
      (sendSearchRequest E id v is_final s).2
  | CallProcessLegalDocument id content type cb =>
      processLegalDocument id content type cb s
  | CallPerformSemanticSearch q coll k cb => performSemanticSearch q coll k cb s
  | CallAnalyzeCaseSimilarity id ids cb => analyzeCaseSimilarity id ids cb s
  | CallCloseStream id => (closeStream E id s).2
  | CallIsConnected => s
  | Scheduled i => schedule E i s
  end.

Definition run (E : Env) (l : list Call) (s : State) : State :=
  foldl (step E) s l.

(** ** The mutex *)

(** One turn of the loop of [readStreamResponses], for a message that [Read]
    has got. *)
Definition loop_turn (E : Env) (it : StreamContext) (response : CudaResponse)
    (s : State) : State :=
  let s := took (stream it) (emit (EvRead (stream it) true) s) in
  match response_callback_ s with
  | Some callback =>
      emit (EvResponseCallback callback (cudaResponseToJson E response)) s
  | None => s
  end.

(** What [readStreamResponses] does after its loop. *)
Definition reader_leaves (E : Env) (it : StreamContext) (s : State) : State :=
  let status := env_finish E (stream it) (trace s) in
  let s := emit (EvFinish (stream it)) s in
  let s :=
    if negb (ok status) then
      match error_callback_ s with
      | Some callback =>
          emit (EvErrorCallback callback (error_message status)) s
      | None => s
      end
    else s in
  match completion_callback_ s with
  | Some callback => emit (EvCompletionCallback callback) s
  | None => s
  end.

(** The object together with the holder of [streams_mutex_]: nobody, or a
    reader thread that is inside [readStreamResponses], in its loop, waiting
    in [Read] on the stream of the context that it has found.  A method of
    the caller holds the mutex from its first statement to its last, which
    is one step here, so that no state has it as the holder. *)
Record Locked := {
  object : State;
  reading : option (string * StreamContext) }.

(** The methods whose first statement is the [lock_guard]. *)
Definition takes_mutex (c : Call) : bool :=
  match c with
  | CallStartBidirectionalStream _ | CallSendEmbeddingRequest _ _ _
  | CallSendSearchRequest _ _ _ | CallCloseStream _ => true
  | _ => false
  end.

(** The caller calls a method.  No result: the call waits at its
    [lock_guard]. *)
Definition call (E : Env) (c : Call) (w : Locked) : option Locked :=
  match c with
  | Scheduled _ => Some w
  | _ =>
      match reading w with
      | Some _ =>
          if takes_mutex c then None
          else Some {| object := step E (object w) c; reading := reading w |}
      | None => Some {| object := step E (object w) c; reading := None |}
      end
  end.

(** The [i]-th detached thread starts to run.  A job thread takes no lock
    and runs to its end.  A reader thread waits at its [lock_guard] while
    another reader holds the mutex; otherwise it looks its id up, returns at
    once when nothing is stored (or leaves its loop at once when the flag is
    cleared), and else goes into [Read] with the mutex held. *)
Definition thread_starts (E : Env) (i : nat) (w : Locked) : option Locked :=
  match threads (object w) !! i with
  | None => Some w
  | Some (ReadStreamThread id) =>
      match reading w with
      | Some _ => None
      | None =>
          let s := set_threads (delete i (threads (object w))) (object w) in
          match active_streams_ s !! id with
          | Some it =>
              if active it
              then Some {| object := s; reading := Some (id, it) |}
              else Some {| object := readStreamResponses E id s;
                           reading := None |}
          | None => Some {| object := s; reading := None |}
          end
      end
  | Some t =>
      Some {| object := run_thread E t
                          (set_threads (delete i (threads (object w)))
                             (object w));
              reading := reading w |}
  end.

(** The remote acts on the stream that the reader waits on: its next
    message arrives and the reader makes one turn of its loop, or the stream
    ends and the reader leaves the loop, reports and gives the mutex up.  No
    result: no reader is waiting. *)
Definition remote_acts (E : Env) (w : Locked) : option Locked :=
  match reading w with
  | None => None
  | Some (id, it) =>
      match unread E (stream it) (object w) with
      | response :: _ =>
          Some {| object := loop_turn E it response (object w);
                  reading := Some (id, it) |}
      | [] =>
          Some {| object :=
                    reader_leaves E it
                      (emit (EvRead (stream it) false) (object w));
                  reading := None |}
      end
  end.

Fixpoint remote_acts_n (E : Env) (n : nat) (w : Locked) : option Locked :=
  match n with
  | 0 => Some w
  | S n =>
      match remote_acts E w with
      | Some w' => remote_acts_n E n w'
      | None => None
      end
  end.

(** ** Reading a trace *)

(** The events that [s'] has and [s] has not yet, when [s'] comes after [s]. *)
Definition since (s s' : State) : list Event :=
  drop (length (trace s)) (trace s').

Definition is_completion (e : Event) : bool :=
  match e with EvCompletionCallback _ => true | _ => false end.

Definition is_write (e : Event) : bool :=
  match e with EvWrite _ _ => true | _ => false end.

Definition is_open (e : Event) : bool :=
  match e with EvBidirectionalLegalStream _ => true | _ => false end.

Definition is_finish (e : Event) : bool :=
  match e with EvFinish _ => true | _ => false end.

(** The calls of the response callback in a trace: which function, with what. *)
Definition responses_delivered (tr : list Event) : list (val * string) :=
  omap (λ e, match e with
             | EvResponseCallback cb json => Some (cb, json)
             | _ => None
             end) tr.

Definition count (p : Event → bool) (tr : list Event) : nat :=
  length (filter (λ e, p e = true) tr).

(** ** Notions used in the statements *)

(** The two kinds of message that a caller can send on a session. *)
Inductive Payload :=
  | Embedding (text : string)
  | SearchVector (embedding_vector : list float).

Definition send (E : Env) (session_id : string) (p : Payload) (is_final : bool)
    (s : State) : bool * State :=
  match p with
  | Embedding text => sendEmbeddingRequest E session_id text is_final s
  | SearchVector v => sendSearchRequest E session_id v is_final s
  end.

Definition request_of (session_id : string) (p : Payload) (is_final : bool)
  : CudaRequest :=
  match p with
  | Embedding text => embedding_request session_id text is_final
  | SearchVector v => search_request session_id v is_final
  end.

(** The events of one run of [read_loop], given the response callback. *)
Fixpoint read_events (E : Env) (it : StreamContext) (callback : option val)
    (incoming : list CudaResponse) : list Event :=
  if active it then
    match incoming with
    | [] => [EvRead (stream it) false]
    | response :: rest =>
        EvRead (stream it) true
          :: match callback with
             | Some cb => [EvResponseCallback cb (cudaResponseToJson E response)]
             | None => []
             end
          ++ read_events E it callback rest
    end
  else [].

(** The events of one run of [reader_loop], and whether the body of the
    thread goes on after it: it does when every text parses. *)
Fixpoint reader_events {R : Type} (E : Env) (to_json : R → string)
    (reader : nat) (callback : val) (incoming : list R) : list Event :=
  match incoming with
  | [] => [EvRead reader false]
  | response :: rest =>
      EvRead reader true
        :: match env_json_parse E (c_str (to_json response)) with
           | Some object =>
               EvJsCallback callback object
                 :: reader_events E to_json reader callback rest
           | None => []
           end
  end.

Fixpoint reader_returns {R : Type} (E : Env) (to_json : R → string)
    (incoming : list R) : bool :=
  match incoming with
  | [] => true
  | response :: rest =>
      match env_json_parse E (c_str (to_json response)) with
      | Some _ => reader_returns E to_json rest
      | None => false
      end
  end.

(** What holds of the registry in every state that the object can reach:
    a context is stored under its own id with its flag set, its stream has
    been opened, and no stream is stored under two ids. *)
Definition registry_ok (s : State) : Prop :=
  (∀ id c, active_streams_ s !! id = Some c →
     active c = true ∧ session_id c = id ∧ context c = stream c ∧
     stream c < calls s) ∧
  (∀ id1 id2 c1 c2,
     active_streams_ s !! id1 = Some c1 → active_streams_ s !! id2 = Some c2 →
     stream c1 = stream c2 → id1 = id2).

Definition sets_response_callback (c : Call) : bool :=
  match c with CallSetResponseCallback _ => true | _ => false end.

(** ** Notions used in the further properties *)

(** The calls of a job's JavaScript function in a trace. *)
Definition js_calls (tr : list Event) : list (val * val) :=
  omap (λ e, match e with
             | EvJsCallback cb object => Some (cb, object)
             | _ => None
             end) tr.

Definition is_writes_done (e : Event) : bool :=
  match e with EvWritesDone _ => true | _ => false end.

Definition is_console_error (e : Event) : bool :=
  match e with EvConsoleError _ => true | _ => false end.

(** A call of one of the three callback fields of the client. *)
Definition is_client_callback (e : Event) : bool :=
  match e with
  | EvResponseCallback _ _ | EvErrorCallback _ _ | EvCompletionCallback _ => true
  | _ => false
  end.

(** A call on the stream or reader numbered [h]. *)
Definition on_stream (h : nat) (e : Event) : bool :=
  match e with
  | EvWrite h' _ | EvWritesDone h' | EvRead h' _ | EvFinish h' =>
      bool_decide (h' = h)
  | _ => false
  end.

(** The reader that a job thread owns; a session's thread owns none, it
    looks its stream up when it runs. *)
Definition thread_reader (t : Thread) : option nat :=
  match t with
  | ReadStreamThread _ => None
  | DocumentThread reader _ | SearchThread reader _
  | SimilarityThread reader _ => Some reader
  end.

(** The JavaScript function that a job thread calls. *)
Definition thread_callback (t : Thread) : option val :=
  match t with
  | ReadStreamThread _ => None
  | DocumentThread _ callback | SearchThread _ callback
  | SimilarityThread _ callback => Some callback
  end.

(** The texts that reach [JSON.parse] in a job thread, one for each response
    that its reader yields, and the prefix of its console message. *)
Definition job_texts (E : Env) (t : Thread) : list string :=
  match t with
  | ReadStreamThread _ => []
  | DocumentThread reader _ =>
      map (λ r, c_str (documentResponseToJson r)) (env_document_responses E reader)
  | SearchThread reader _ =>
      map (λ r, c_str (searchResponseToJson r)) (env_search_responses E reader)
  | SimilarityThread reader _ =>
      map (λ r, c_str (similarityResponseToJson r))
        (env_similarity_responses E reader)
  end.

Definition job_failed (t : Thread) : string :=
  match t with
  | ReadStreamThread _ => EmptyString
  | DocumentThread _ _ => "Document processing failed: "
  | SearchThread _ _ => "Semantic search failed: "
  | SimilarityThread _ _ => "Case similarity analysis failed: "
  end.

(** The values of the texts before the first one that does not parse. *)
Fixpoint parsed_prefix (E : Env) (texts : list string) : list val :=
  match texts with
  | [] => []
  | text :: rest =>
      match env_json_parse E text with
      | Some object => object :: parsed_prefix E rest
      | None => []
      end
  end.

Fixpoint all_parse (E : Env) (texts : list string) : bool :=
  match texts with
  | [] => true
  | text :: rest =>
      match env_json_parse E text with
      | Some _ => all_parse E rest
      | None => false
      end
  end.

Definition starts_session (id : string) (c : Call) : bool :=
  match c with
  | CallStartBidirectionalStream id' => bool_decide (id' = id)
  | _ => false
  end.

(** A call that takes the session under [id] out of the registry or puts
    another one in its place. *)
Definition ends_session (id : string) (c : Call) : bool :=
  match c with
  | CallStartBidirectionalStream id' | CallCloseStream id' =>
      bool_decide (id' = id)
  | _ => false
  end.

(** Stream [h] has been opened and is held by nobody any more: it is not
    stored in the registry and no waiting thread owns it. *)
Definition released (h : nat) (s : State) : Prop :=
  h < calls s ∧
  (∀ id c, active_streams_ s !! id = Some c → stream c ≠ h) ∧
  (∀ t, t ∈ threads s → thread_reader t ≠ Some h).

(** What holds of the surroundings in every state that the object can reach:
    the reader of a waiting job thread has been opened and is not a stored
    stream, and nothing has been read from a stream that is not open yet. *)
Definition surroundings_ok (s : State) : Prop :=
  (∀ t h, t ∈ threads s → thread_reader t = Some h →
     h < calls s ∧ ∀ id c, active_streams_ s !! id = Some c → stream c ≠ h) ∧
  (∀ h, calls s ≤ h → consumed s !! h = None).

(** ** An environment to run examples in *)

Definition ends_writes (h : nat) (e : Event) : bool :=
  match e with
  | EvWritesDone h' | EvFinish h' => bool_decide (h' = h)
  | _ => false
  end.

Definition sample_response (id : string) (n : Z) : CudaResponse :=
  {| cr_session_id := id; cr_operation_type := "embed"; cr_status := n;
     computed_embedding := [S754_zero false]; cuda_metrics := None |}.

(** A stand-in for [JSON.parse] in the examples: a text is taken to parse
    when it ends in a closing brace, which a text that was cut at a NUL
    does not. *)
Fixpoint ends_with_brace (text : string) : bool :=
  match text with
  | EmptyString => false
  | String c EmptyString => Ascii.eqb c (Ascii.ascii_of_nat 125)
  | String _ rest => ends_with_brace rest
  end.

(** A remote that takes a write on a stream as long as that stream has been
    neither half-closed nor finished, ends every stream with OK, and sends
    two responses on stream 0 and one on stream 1.  Only zero is ever
    printed in the examples, and a parsed value is shown as the length of
    its text. *)
Definition remote : Env :=
  {| env_write := λ h _ tr, negb (existsb (ends_writes h) tr);
     env_finish := λ _ _, {| ok := true; error_message := EmptyString |};
     env_responses := λ h,
       match h with
       | 0 => [sample_response "s1" 0; sample_response "s1" 1]
       | 1 => [sample_response "s2" 0]
       | _ => []
       end;
     env_document_responses := λ _, [{| dr_document_id := "d1" |}];
     env_search_responses := λ _, [{| sr_query_id := "q1" |}];
     env_similarity_responses := λ _, [{| mr_base_case_id := "c1" |}];
     env_to_string := λ _, "0.000000";
     env_json_parse := λ text,
       if ends_with_brace text then Some (String.length text) else None |}.


(** A remote that cannot be reached: no call is ever established. *)
Definition unreachable : Env :=
  {| env_write := λ _ _ _, false;
     env_finish := λ _ _, {| ok := false; error_message := "failed to connect" |};
     env_responses := λ _, [];
     env_document_responses := λ _, [];
     env_search_responses := λ _, [];
     env_similarity_responses := λ _, [];
     env_to_string := λ _, "0.000000";
     env_json_parse := λ _, None |}.

Definition fresh_client : State := LegalGrpcWebClient "https://legal.example".

(** A client with one started session, "s1", whose reader has not run. *)
Definition one_session : State := (startBidirectionalStream "s1" fresh_client).2.

(** The context that the first start on a fresh client stores under "s1". *)
Definition first_context : StreamContext :=
  {| context := 0; stream := 0; active := true; session_id := "s1" |}.

(** Sessions "s1" and "s2", started while callback 5 takes the responses. *)
Definition two_sessions : State :=
  (startBidirectionalStream "s2"
     (startBidirectionalStream "s1" (setResponseCallback 5 fresh_client)).2).2.

(** A state that no run produces: "s1" is stored with its flag cleared. *)
Definition flag_cleared : State :=
  set_active_streams
    {[ "s1" := {| context := 0; stream := 0; active := false;
                  session_id := "s1" |} ]} one_session.

(** * Properties *)

(** ** Traces *)

Lemma since_app (s s' : State) (evs : list Event) :
  trace s' = trace s ++ evs → since s s' = evs.
Proof. intros Htr. unfold since. rewrite Htr. apply drop_app_length. Qed.

Lemma since_refl (s : State) : since s s = [].
Proof. apply since_app. by rewrite app_nil_r. Qed.

Lemma count_app (p : Event → bool) (l k : list Event) :
  count p (l ++ k) = count p l + count p k.
Proof. unfold count. by rewrite filter_app, length_app. Qed.

Lemma count_cons (p : Event → bool) (e : Event) (l : list Event) :
  count p (e :: l) = (if p e then 1 else 0) + count p l.
Proof.
  unfold count. rewrite filter_cons.
  destruct (p e); case_decide; simpl; congruence.
Qed.

Lemma responses_delivered_app (l k : list Event) :
  responses_delivered (l ++ k) = responses_delivered l ++ responses_delivered k.
Proof. unfold responses_delivered. apply omap_app. Qed.

Lemma responses_delivered_cons (e : Event) (l : list Event) :
  responses_delivered (e :: l)
  = match e with
    | EvResponseCallback cb json => [(cb, json)]
    | _ => []
    end ++ responses_delivered l.
Proof. by destruct e. Qed.

(** ** The reader loops *)

Lemma read_loop_trace (E : Env) (it : StreamContext) (incoming : list CudaResponse) :
  ∀ s, trace (read_loop E it incoming s)
       = trace s ++ read_events E it (response_callback_ s) incoming.
Proof.
  induction incoming as [|response rest IH]; intros s; simpl.
  - destruct (active it); simpl; [done | by rewrite app_nil_r].
  - destruct (active it) eqn:Hact; [| by rewrite app_nil_r].
    destruct (response_callback_ s) as [cb|] eqn:Hcb; simpl;
      rewrite IH; simpl; rewrite Hcb, <- ?app_assoc; done.
Qed.

(** The loop changes the trace and the read positions, and nothing else. *)
Lemma read_loop_frame (E : Env) (it : StreamContext) (incoming : list CudaResponse) :
  ∀ s, let s' := read_loop E it incoming s in
       connected_ s' = connected_ s ∧
       response_callback_ s' = response_callback_ s ∧
       error_callback_ s' = error_callback_ s ∧
       completion_callback_ s' = completion_callback_ s ∧
       active_streams_ s' = active_streams_ s ∧
       calls s' = calls s ∧ threads s' = threads s.
Proof.
  induction incoming as [|response rest IH]; intros s; simpl.
  - destruct (active it); simpl; repeat split.
  - destruct (active it); [| repeat split].
    destruct (response_callback_ s) as [cb|] eqn:Hcb;
      lazymatch goal with |- context [read_loop E it rest ?t] =>
        specialize (IH t) end;
      simpl in IH; destruct IH as (?&?&?&?&?&?&?);
      repeat split; congruence.
Qed.

Lemma reader_loop_trace {R : Type} (E : Env) (to_json : R → string)
    (reader : nat) (callback : val) (incoming : list R) :
  ∀ s, trace (reader_loop E to_json reader callback incoming s).1
       = trace s ++ reader_events E to_json reader callback incoming.
Proof.
  induction incoming as [|response rest IH]; intros s; simpl; [done |].
  destruct (env_json_parse E _); simpl.
  - rewrite IH. simpl. by rewrite <- !app_assoc.
  - done.
Qed.

Lemma reader_loop_returns {R : Type} (E : Env) (to_json : R → string)
    (reader : nat) (callback : val) (incoming : list R) :
  ∀ s, (reader_loop E to_json reader callback incoming s).2
       = reader_returns E to_json incoming.
Proof.
  induction incoming as [|response rest IH]; intros s; simpl; [done |].
  destruct (env_json_parse E _); simpl; [apply IH | done].
Qed.

Lemma reader_loop_frame {R : Type} (E : Env) (to_json : R → string)
    (reader : nat) (callback : val) (incoming : list R) :
  ∀ s, let s' := (reader_loop E to_json reader callback incoming s).1 in
       connected_ s' = connected_ s ∧
       response_callback_ s' = response_callback_ s ∧
       error_callback_ s' = error_callback_ s ∧
       completion_callback_ s' = completion_callback_ s ∧
       active_streams_ s' = active_streams_ s ∧
       calls s' = calls s ∧ threads s' = threads s.
Proof.
  induction incoming as [|response rest IH]; intros s; simpl;
    [repeat split |].
  destruct (env_json_parse E _) as [object|]; simpl; [| repeat split].
  lazymatch goal with
  | |- context [reader_loop E to_json reader callback rest ?t] =>
      specialize (IH t)
  end.
  simpl in IH. destruct IH as (?&?&?&?&?&?&?). repeat split; congruence.
Qed.

Lemma read_events_no_completion (E : Env) (it : StreamContext)
    (callback : option val) (incoming : list CudaResponse) :
  count is_completion (read_events E it callback incoming) = 0.
Proof.
  induction incoming as [|response rest IH]; simpl;
    destruct (active it); try done.
  rewrite count_cons, count_app, IH. by destruct callback.
Qed.

Lemma read_events_no_write (E : Env) (it : StreamContext)
    (callback : option val) (incoming : list CudaResponse) :
  count is_write (read_events E it callback incoming) = 0.
Proof.
  induction incoming as [|response rest IH]; simpl;
    destruct (active it); try done.
  rewrite count_cons, count_app, IH. by destruct callback.
Qed.


(** With the flag set, the loop hands every message once, in order, to the
    callback that the field holds. *)
Lemma read_events_delivered (E : Env) (it : StreamContext) (cb : val)
    (incoming : list CudaResponse) :
  active it = true →
  responses_delivered (read_events E it (Some cb) incoming)
  = map (λ response, (cb, cudaResponseToJson E response)) incoming.
Proof.
  intros Hact. induction incoming as [|response rest IH]; simpl;
    rewrite Hact; [done |].
  rewrite !responses_delivered_cons, IH. done.
Qed.

Lemma read_events_delivered_none (E : Env) (it : StreamContext)
    (incoming : list CudaResponse) :
  responses_delivered (read_events E it None incoming) = [].
Proof.
  induction incoming as [|response rest IH]; simpl;
    destruct (active it); done.
Qed.

(** ** What a thread changes *)

(** One run of [readStreamResponses] on a stored session: the loop, then
    [Finish], then the error callback for a status that is not OK, then the
    completion callback; each callback only if its field holds one. *)
Lemma readStreamResponses_trace (E : Env) (id : string) (s : State)
    (it : StreamContext) :
  active_streams_ s !! id = Some it →
  let loop := read_events E it (response_callback_ s) (unread E (stream it) s) in
  let status := env_finish E (stream it) (trace s ++ loop) in
  trace (readStreamResponses E id s)
  = trace s ++ loop ++ [EvFinish (stream it)]
      ++ (if negb (ok status)
          then match error_callback_ s with
               | Some cb => [EvErrorCallback cb (error_message status)]
               | None => []
               end
          else [])
      ++ match completion_callback_ s with
         | Some cb => [EvCompletionCallback cb]
         | None => []
         end.
Proof.
  intros Hit. unfold readStreamResponses. rewrite Hit.
  pose proof (read_loop_trace E it (unread E (stream it) s) s) as Htr.
  pose proof (read_loop_frame E it (unread E (stream it) s) s) as Hfr.
  simpl in Hfr. destruct Hfr as (_ & _ & Herr & Hcompl & _).
  cbn zeta. rewrite <- Htr.
  set (s1 := read_loop E it (unread E (stream it) s) s) in *.
  destruct (negb (ok (env_finish E (stream it) (trace s1)))); simpl;
    rewrite ?Herr; destruct (error_callback_ s); simpl;
    rewrite Hcompl; destruct (completion_callback_ s); simpl;
    rewrite Htr, <- ?app_assoc; reflexivity.
Qed.

Lemma readStreamResponses_unknown (E : Env) (id : string) (s : State) :
  active_streams_ s !! id = None → readStreamResponses E id s = s.
Proof. intros Hid. unfold readStreamResponses. by rewrite Hid. Qed.

Lemma readStreamResponses_frame (E : Env) (id : string) (s : State) :
  let s' := readStreamResponses E id s in
  connected_ s' = connected_ s ∧
  response_callback_ s' = response_callback_ s ∧
  error_callback_ s' = error_callback_ s ∧
  completion_callback_ s' = completion_callback_ s ∧
  active_streams_ s' = active_streams_ s ∧
  calls s' = calls s ∧ threads s' = threads s.
Proof.
  unfold readStreamResponses.
  destruct (active_streams_ s !! id) as [it|]; [| repeat split].
  pose proof (read_loop_frame E it (unread E (stream it) s) s) as Hfr.
  simpl in Hfr. destruct Hfr as (?&?&Herr&Hcompl&?&?&?).
  cbn zeta.
  set (s1 := read_loop E it (unread E (stream it) s) s) in *.
  destruct (negb (ok (env_finish E (stream it) (trace s1)))); simpl;
    rewrite ?Herr; destruct (error_callback_ s); simpl;
    rewrite Hcompl; destruct (completion_callback_ s); simpl;
    repeat split; congruence.
Qed.

Lemma reader_finish_trace (E : Env) (reader : nat) (failed : string) (s : State) :
  let status := env_finish E reader (trace s) in
  trace (reader_finish E reader failed s)
  = trace s ++ EvFinish reader
      :: (if negb (ok status)
          then [EvConsoleError (failed +:+ c_str (error_message status))]
          else []).
Proof.
  unfold reader_finish.
  destruct (negb (ok (env_finish E reader (trace s)))); simpl;
    by rewrite <- ?app_assoc.
Qed.

Lemma reader_finish_frame (E : Env) (reader : nat) (failed : string) (s : State) :
  let s' := reader_finish E reader failed s in
  connected_ s' = connected_ s ∧
  response_callback_ s' = response_callback_ s ∧
  error_callback_ s' = error_callback_ s ∧
  completion_callback_ s' = completion_callback_ s ∧
  active_streams_ s' = active_streams_ s ∧
  calls s' = calls s ∧ threads s' = threads s.
Proof.
  unfold reader_finish.
  destruct (negb (ok (env_finish E reader (trace s)))); simpl; repeat split.
Qed.

(** The body of a job thread: its loop, and when the loop returns,
    [Finish] and the console for a status that is not OK. *)
Lemma job_thread_trace {R : Type} (E : Env) (to_json : R → string)
    (reader : nat) (callback : val) (incoming : list R) (failed : string)
    (s : State) :
  let loop := reader_events E to_json reader callback incoming in
  let status := env_finish E reader (trace s ++ loop) in
  trace (job_thread E to_json reader callback incoming failed s)
  = trace s ++ loop
      ++ (if reader_returns E to_json incoming
          then EvFinish reader
                 :: (if negb (ok status)
                     then [EvConsoleError
                             (failed +:+ c_str (error_message status))]
                     else [])
          else []).
Proof.
  cbn zeta. unfold job_thread. rewrite reader_loop_returns.
  destruct (reader_returns E to_json incoming).
  - rewrite reader_finish_trace, reader_loop_trace. by rewrite <- app_assoc.
  - by rewrite reader_loop_trace, app_nil_r.
Qed.

Lemma job_thread_frame {R : Type} (E : Env) (to_json : R → string)
    (reader : nat) (callback : val) (incoming : list R) (failed : string)
    (s : State) :
  let s' := job_thread E to_json reader callback incoming failed s in
  connected_ s' = connected_ s ∧
  response_callback_ s' = response_callback_ s ∧
  error_callback_ s' = error_callback_ s ∧
  completion_callback_ s' = completion_callback_ s ∧
  active_streams_ s' = active_streams_ s ∧
  calls s' = calls s ∧ threads s' = threads s.
Proof.
  unfold job_thread.
  pose proof (reader_loop_frame E to_json reader callback incoming s) as H1.
  destruct (reader_loop E to_json reader callback incoming s) as [s1 alive].
  simpl in *. destruct alive; [| exact H1].
  pose proof (reader_finish_frame E reader failed s1) as H2.
  simpl in H2. destruct H1 as (?&?&?&?&?&?&?), H2 as (?&?&?&?&?&?&?).
  repeat split; congruence.
Qed.

(** A thread leaves the fields of the object and the count of calls alone. *)
Lemma run_thread_frame (E : Env) (t : Thread) (s : State) :
  let s' := run_thread E t s in
  connected_ s' = connected_ s ∧
  response_callback_ s' = response_callback_ s ∧
  error_callback_ s' = error_callback_ s ∧
  completion_callback_ s' = completion_callback_ s ∧
  active_streams_ s' = active_streams_ s ∧
  calls s' = calls s ∧ threads s' = threads s.
Proof.
  destruct t as [id|reader cb|reader cb|reader cb]; simpl;
    [apply readStreamResponses_frame | apply job_thread_frame ..].
Qed.

Lemma schedule_frame (E : Env) (i : nat) (s : State) :
  let s' := schedule E i s in
  connected_ s' = connected_ s ∧
  response_callback_ s' = response_callback_ s ∧
  error_callback_ s' = error_callback_ s ∧
  completion_callback_ s' = completion_callback_ s ∧
  active_streams_ s' = active_streams_ s ∧
  calls s' = calls s.
Proof.
  unfold schedule. destruct (threads s !! i) as [t|]; [| repeat split].
  pose proof (run_thread_frame E t (set_threads (delete i (threads s)) s)) as H.
  simpl in H. destruct H as (?&?&?&?&?&?&?). repeat split; assumption.
Qed.

(** ** What a call changes *)

Lemma startBidirectionalStream_fields (id : string) (s : State) :
  let r := startBidirectionalStream id s in
  r.1 = id ∧
  active_streams_ r.2
  = <[id := {| context := calls s; stream := calls s; active := true;
               session_id := id |}]> (active_streams_ s) ∧
  calls r.2 = S (calls s) ∧
  threads r.2 = threads s ++ [ReadStreamThread id] ∧
  trace r.2
  = trace s ++ [EvBidirectionalLegalStream (calls s);
                EvConsoleLog ("📡 Started bidirectional stream for session: "
                              +:+ c_str id)].
Proof. simpl. repeat split. by rewrite <- app_assoc. Qed.

Lemma send_registered (E : Env) (id : string) (p : Payload) (fin : bool)
    (s : State) (it : StreamContext) :
  active_streams_ s !! id = Some it → active it = true →
  let r := send E id p fin s in
  r.1 = env_write E (stream it) (request_of id p fin) (trace s) ∧
  active_streams_ r.2 = active_streams_ s ∧
  trace r.2
  = trace s ++ EvWrite (stream it) (request_of id p fin)
      :: match p with
         | Embedding _ => if fin then [EvWritesDone (stream it)] else []
         | SearchVector _ => []
         end.
Proof.
  intros Hit Hact.
  destruct p as [text|v]; simpl;
    unfold sendEmbeddingRequest, sendSearchRequest; rewrite Hit, Hact; simpl;
    [destruct fin; simpl |]; repeat split; by rewrite <- ?app_assoc.
Qed.

Lemma send_rejected (E : Env) (id : string) (p : Payload) (fin : bool)
    (s : State) :
  match active_streams_ s !! id with
  | Some it => active it = false
  | None => True
  end →
  send E id p fin s = (false, s).
Proof.
  intros Hid.
  destruct p as [text|v]; simpl;
    unfold sendEmbeddingRequest, sendSearchRequest;
    destruct (active_streams_ s !! id) as [it|]; try done;
    by rewrite Hid.
Qed.

Lemma send_frame (E : Env) (id : string) (p : Payload) (fin : bool) (s : State) :
  let s' := (send E id p fin s).2 in
  connected_ s' = connected_ s ∧
  response_callback_ s' = response_callback_ s ∧
  error_callback_ s' = error_callback_ s ∧
  completion_callback_ s' = completion_callback_ s ∧
  active_streams_ s' = active_streams_ s ∧
  calls s' = calls s ∧ threads s' = threads s.
Proof.
  destruct p as [text|v]; simpl;
    unfold sendEmbeddingRequest, sendSearchRequest;
    destruct (active_streams_ s !! id) as [it|]; simpl; try (repeat split; fail);
    destruct (active it); simpl; try (repeat split; fail).
  destruct fin; simpl; repeat split.
Qed.

Lemma closeStream_registered (E : Env) (id : string) (s : State)
    (it : StreamContext) :
  active_streams_ s !! id = Some it →
  let r := closeStream E id s in
  r.1 = ok (env_finish E (stream it) (trace s ++ [EvWritesDone (stream it)])) ∧
  active_streams_ r.2 = delete id (active_streams_ s) ∧
  trace r.2
  = trace s ++ [EvWritesDone (stream it); EvFinish (stream it);
                EvConsoleLog ("🔌 Closed stream for session: " +:+ c_str id)].
Proof.
  intros Hit. unfold closeStream. rewrite Hit. simpl.
  repeat split; [apply delete_insert_eq | by rewrite <- !app_assoc].
Qed.

Lemma closeStream_unknown (E : Env) (id : string) (s : State) :
  active_streams_ s !! id = None → closeStream E id s = (false, s).
Proof. intros Hid. unfold closeStream. by rewrite Hid. Qed.

Lemma closeStream_frame (E : Env) (id : string) (s : State) :
  let s' := (closeStream E id s).2 in
  connected_ s' = connected_ s ∧
  response_callback_ s' = response_callback_ s ∧
  error_callback_ s' = error_callback_ s ∧
  completion_callback_ s' = completion_callback_ s ∧
  active_streams_ s' = delete id (active_streams_ s) ∧
  calls s' = calls s ∧ threads s' = threads s.
Proof.
  unfold closeStream. destruct (active_streams_ s !! id) as [it|] eqn:Hit; simpl.
  - repeat split. apply delete_insert_eq.
  - repeat split. symmetry. by apply delete_id.
Qed.

(** No call clears [connected_]. *)
Lemma step_connected (E : Env) (s : State) (c : Call) :
  connected_ (step E s c) = connected_ s.
Proof.
  destruct c as [cb|cb|cb|id|id text fin|id v fin|d content type cb|q coll k cb|b ids cb|id| |i]; simpl; try reflexivity.
  - apply (send_frame E id (Embedding text) fin s).
  - apply (send_frame E id (SearchVector v) fin s).
  - apply closeStream_frame.
  - apply schedule_frame.
Qed.

(** Only [setResponseCallback] writes [response_callback_]. *)
Lemma step_response_callback (E : Env) (s : State) (c : Call) :
  sets_response_callback c = false →
  response_callback_ (step E s c) = response_callback_ s.
Proof.
  destruct c as [cb|cb|cb|id|id text fin|id v fin|d content type cb|q coll k cb|b ids cb|id| |i]; simpl; intros Hc; try reflexivity; try discriminate.
  - apply (send_frame E id (Embedding text) fin s).
  - apply (send_frame E id (SearchVector v) fin s).
  - apply closeStream_frame.
  - apply schedule_frame.
Qed.

Lemma run_app (E : Env) (l k : list Call) (s : State) :
  run E (l ++ k) s = run E k (run E l s).
Proof. unfold run. apply foldl_app. Qed.

Lemma run_connected (E : Env) (l : list Call) :
  ∀ s, connected_ (run E l s) = connected_ s.
Proof.
  induction l as [|c l IH]; intros s; simpl; [done |].
  by rewrite IH, step_connected.
Qed.

Lemma run_response_callback (E : Env) (l : list Call) :
  ∀ s, forallb (λ c, negb (sets_response_callback c)) l = true →
       response_callback_ (run E l s) = response_callback_ s.
Proof.
  induction l as [|c l IH]; intros s Hl; simpl in *; [done |].
  apply andb_true_iff in Hl as [Hc Hl].
  rewrite IH by done. apply step_response_callback.
  by apply negb_true_iff.
Qed.

(** ** The registry in reachable states *)

Lemma registry_ok_fresh (endpoint : string) :
  registry_ok (LegalGrpcWebClient endpoint).
Proof. split; simpl; intros *; by rewrite lookup_empty. Qed.

Lemma registry_ok_shrink (s s' : State) :
  active_streams_ s' ⊆ active_streams_ s → calls s ≤ calls s' →
  registry_ok s → registry_ok s'.
Proof.
  intros Hsub Hcalls [Hctx Hinj]. split.
  - intros id c Hc.
    destruct (Hctx id c) as (?&?&?&?); [by eapply lookup_weaken |].
    repeat split; [done .. | lia].
  - intros id1 id2 c1 c2 H1 H2.
    apply (Hinj id1 id2 c1 c2); by eapply lookup_weaken.
Qed.

Lemma registry_ok_start (id : string) (s : State) :
  registry_ok s → registry_ok (startBidirectionalStream id s).2.
Proof.
  intros [Hctx Hinj]. split; simpl.
  - intros id' c. rewrite lookup_insert. case_decide as Hid.
    + intros [= <-]. subst id'. simpl. repeat split. lia.
    + intros Hc. destruct (Hctx id' c Hc) as (?&?&?&?).
      repeat split; [done .. | lia].
  - intros id1 id2 c1 c2. rewrite !lookup_insert.
    case_decide as H1; case_decide as H2; [congruence | | |].
    + intros [= <-] Hc2 Heq. simpl in Heq.
      destruct (Hctx id2 c2 Hc2) as (_&_&_&?). lia.
    + intros Hc1 [= <-] Heq. simpl in Heq.
      destruct (Hctx id1 c1 Hc1) as (_&_&_&?). lia.
    + apply Hinj.
Qed.

Lemma step_registry_ok (E : Env) (s : State) (c : Call) :
  registry_ok s → registry_ok (step E s c).
Proof.
  intros Hs. destruct c as [cb|cb|cb|id|id text fin|id v fin|d content type cb|q coll k cb|b ids cb|id| |i]; simpl;
    try (by apply (registry_ok_shrink s); simpl; [| lia |]).
  - by apply registry_ok_start.
  - pose proof (send_frame E id (Embedding text) fin s) as H.
    simpl in H. destruct H as (_&_&_&_&Hm&Hc&_).
    apply (registry_ok_shrink s); [by rewrite Hm | lia | done].
  - pose proof (send_frame E id (SearchVector v) fin s) as H.
    simpl in H. destruct H as (_&_&_&_&Hm&Hc&_).
    apply (registry_ok_shrink s); [by rewrite Hm | lia | done].
  - pose proof (closeStream_frame E id s) as H.
    simpl in H. destruct H as (_&_&_&_&Hm&Hc&_).
    apply (registry_ok_shrink s); [| lia | done].
    rewrite Hm. apply delete_subseteq.
  - pose proof (schedule_frame E i s) as H.
    simpl in H. destruct H as (_&_&_&_&Hm&Hc).
    apply (registry_ok_shrink s); [by rewrite Hm | lia | done].
Qed.

Lemma run_registry_ok (E : Env) (l : list Call) :
  ∀ s, registry_ok s → registry_ok (run E l s).
Proof.
  induction l as [|c l IH]; intros s Hs; simpl; [done |].
  by apply IH, step_registry_ok.
Qed.

(** ** Sessions that stay *)

(** A session stays as it is stored under anything but a close of its id
    or a start under it. *)
Lemma step_keeps_session (E : Env) (s : State) (c : Call) (id : string) :
  ends_session id c = false →
  active_streams_ (step E s c) !! id = active_streams_ s !! id.
Proof.
  destruct c as [cb|cb|cb|id'|id' text fin|id' v fin|d content type cb
                |q coll k cb|b ids cb|id'| |i]; cbn [step ends_session];
    intros Hc; try reflexivity.
  - apply bool_decide_eq_false in Hc. simpl. by rewrite lookup_insert_ne.
  - destruct (send_frame E id' (Embedding text) fin s) as (_&_&_&_&Hm&_).
    exact (f_equal (λ m, m !! id) Hm).
  - destruct (send_frame E id' (SearchVector v) fin s) as (_&_&_&_&Hm&_).
    exact (f_equal (λ m, m !! id) Hm).
  - apply bool_decide_eq_false in Hc.
    destruct (closeStream_frame E id' s) as (_&_&_&_&Hm&_).
    rewrite Hm. by rewrite lookup_delete_ne.
  - destruct (schedule_frame E i s) as (_&_&_&_&Hm&_). by rewrite Hm.
Qed.

Lemma run_keeps_session (E : Env) (l : list Call) (id : string) :
  ∀ s, forallb (λ c, negb (ends_session id c)) l = true →
       active_streams_ (run E l s) !! id = active_streams_ s !! id.
Proof.
  induction l as [|c l IH]; intros s Hl; simpl in *; [done |].
  apply andb_true_iff in Hl as [Hc Hl].
  rewrite IH by done. apply step_keeps_session. by apply negb_true_iff.
Qed.

(** * The claims *)

(** ** C1: a start under an id that is in use *)

(** C1 as stated fails.  With session "s1" stored and its flag set, a second
    start under "s1" returns the id as the first one did, opens stream 1 on
    the stub, and stores that stream under "s1" in place of stream 0. *)
Lemma start_on_active_id_opens_again :
  let r := startBidirectionalStream "s1" one_session in
  active_streams_ one_session !! "s1" = Some first_context ∧
  r.1 = "s1" ∧
  filter (λ e, is_open e = true) (since one_session r.2)
  = [EvBidirectionalLegalStream 1] ∧
  stream <$> active_streams_ r.2 !! "s1" = Some 1.
Proof. vm_compute. repeat split. Qed.

(** C1 (amended): in every state that the client can reach, and for every id,
    also one that is stored with its flag set, [startBidirectionalStream]
    returns the id, opens one new stream and stores it under the id with the
    flag set.  Other ids keep their entry, the stream that was stored under the
    id before is stored nowhere afterwards, and no stream is stored under two
    ids: the registry holds one handle per id. *)
Theorem startBidirectionalStream_replaces (E : Env) (endpoint : string)
    (l : list Call) (id : string) :
  let s := run E l (LegalGrpcWebClient endpoint) in
  let r := startBidirectionalStream id s in
  r.1 = id ∧
  since s r.2
  = [EvBidirectionalLegalStream (calls s);
     EvConsoleLog ("📡 Started bidirectional stream for session: " +:+ c_str id)] ∧
  active_streams_ r.2 !! id
  = Some {| context := calls s; stream := calls s; active := true;
            session_id := id |} ∧
  (∀ id', id' ≠ id → active_streams_ r.2 !! id' = active_streams_ s !! id') ∧
  (∀ old id' c,
     active_streams_ s !! id = Some old → active_streams_ r.2 !! id' = Some c →
     stream c ≠ stream old) ∧
  (∀ id1 id2 c1 c2,
     active_streams_ r.2 !! id1 = Some c1 → active_streams_ r.2 !! id2 = Some c2 →
     stream c1 = stream c2 → id1 = id2).
Proof.
  intros s r.
  assert (Hs : registry_ok s)
    by apply run_registry_ok, registry_ok_fresh.
  pose proof (registry_ok_start id s Hs) as [_ Hinj'].
  destruct (startBidirectionalStream_fields id s) as (Hr & Hm & _ & _ & Htr).
  fold r in Hr, Hm, Htr, Hinj'.
  split; [exact Hr |].
  split; [by apply since_app |].
  split; [rewrite Hm; apply lookup_insert_eq |].
  split; [intros id' Hne; rewrite Hm; by apply lookup_insert_ne |].
  split; [| exact Hinj'].
  intros old id' c Hold Hc Heq. destruct Hs as [Hctx Hinj].
  rewrite Hm, lookup_insert in Hc. case_decide as Hid.
  - injection Hc as <-. simpl in Heq.
    destruct (Hctx id old Hold) as (_ & _ & _ & Hlt). lia.
  - apply Hid. symmetry. by apply (Hinj id' id c old).
Qed.

Lemma startBidirectionalStream_replaces_witness :
  let s := run remote [CallStartBidirectionalStream "s1";
                       CallStartBidirectionalStream "s2"]
             (LegalGrpcWebClient "https://legal.example") in
  let r := startBidirectionalStream "s1" s in
  "s2" ≠ "s1" ∧ active_streams_ s !! "s1" = Some first_context ∧
  active_streams_ r.2 !! "s2" = active_streams_ s !! "s2" ∧
  (∀ id' c, active_streams_ r.2 !! id' = Some c → stream c ≠ 0).
Proof.
  pose proof (startBidirectionalStream_replaces remote
                "https://legal.example"
                [CallStartBidirectionalStream "s1";
                 CallStartBidirectionalStream "s2"] "s1")
    as (_ & _ & _ & Hother & Hold & _).
  assert (Hne : "s2" ≠ "s1") by discriminate.
  assert (Hfirst :
    active_streams_
      (run remote [CallStartBidirectionalStream "s1";
                   CallStartBidirectionalStream "s2"]
         (LegalGrpcWebClient "https://legal.example")) !! "s1"
    = Some first_context) by (vm_compute; reflexivity).
  split; [exact Hne |]. split; [exact Hfirst |].
  split; [exact (Hother "s2" Hne) |].
  intros id' c Hc. exact (Hold first_context id' c Hfirst Hc).
Defined.

(** ** C2: a send after a final send *)

(** C2 as stated fails.  After "hello" has been sent as the final chunk of
    "s1" (a write followed by [WritesDone]), the send of "world" on "s1" is
    written to the same stream.  It returns false here, and that is the
    answer of the transport to the write. *)
Lemma send_after_final_reaches_transport :
  let s1 := (sendEmbeddingRequest remote "s1" "hello" true one_session).2 in
  let r := sendEmbeddingRequest remote "s1" "world" false s1 in
  since one_session s1
  = [EvWrite 0 (embedding_request "s1" "hello" true); EvWritesDone 0] ∧
  since s1 r.2 = [EvWrite 0 (embedding_request "s1" "world" false)] ∧
  r.1 = false.
Proof. vm_compute. repeat split. Qed.

(** C2 (amended): the client keeps no record of a final send.  After a send
    with [is_final] set on a session that is stored with its flag set, every
    later send of either kind on the session, whatever has been called or
    scheduled in between short of a close of the session or a start under
    its id, finds the session stored as before, writes its message to the
    session's stream, once, and returns what the transport answers to that
    write. *)
Theorem send_after_final_is_written (E : Env) (s : State) (id : string)
    (it : StreamContext) (p1 : Payload) (l : list Call) (p2 : Payload)
    (fin : bool) :
  active_streams_ s !! id = Some it → active it = true →
  forallb (λ c, negb (ends_session id c)) l = true →
  let s1 := (send E id p1 true s).2 in
  let s2 := run E l s1 in
  let r := send E id p2 fin s2 in
  active_streams_ s2 !! id = Some it ∧
  r.1 = env_write E (stream it) (request_of id p2 fin) (trace s2) ∧
  filter (λ e, is_write e = true) (since s2 r.2)
  = [EvWrite (stream it) (request_of id p2 fin)].
Proof.
  intros Hit Hact Hl s1 s2 r.
  destruct (send_registered E id p1 true s it Hit Hact) as (_ & Hm & _).
  fold s1 in Hm.
  assert (Hit2 : active_streams_ s2 !! id = Some it).
  { unfold s2. rewrite run_keeps_session by done. by rewrite Hm. }
  destruct (send_registered E id p2 fin s2 it Hit2 Hact) as (Hr & _ & Htr).
  fold r in Hr, Htr.
  split; [exact Hit2 |]. split; [exact Hr |].
  rewrite (since_app _ _ _ Htr).
  destruct p2 as [text|v]; [destruct fin |]; reflexivity.
Qed.

Lemma send_after_final_is_written_witness :
  let l := [CallSendEmbeddingRequest "s1" "again" false; Scheduled 0;
            CallSendSearchRequest "s1" [S754_zero false] true;
            CallStartBidirectionalStream "s2"] in
  (active_streams_ one_session !! "s1" = Some first_context ∧
   active first_context = true ∧
   forallb (λ c, negb (ends_session "s1" c)) l = true) ∧
  let s1 := (send remote "s1" (Embedding "hello") true one_session).2 in
  let s2 := run remote l s1 in
  let r := send remote "s1" (Embedding "world") false s2 in
  active_streams_ s2 !! "s1" = Some first_context ∧
  r.1 = env_write remote (stream first_context)
          (request_of "s1" (Embedding "world") false) (trace s2) ∧
  filter (λ e, is_write e = true) (since s2 r.2)
  = [EvWrite (stream first_context)
       (request_of "s1" (Embedding "world") false)].
Proof.
  assert (Hit : active_streams_ one_session !! "s1" = Some first_context)
    by (vm_compute; reflexivity).
  split; [repeat split; exact Hit |].
  exact (send_after_final_is_written remote one_session "s1" first_context
           (Embedding "hello")
           [CallSendEmbeddingRequest "s1" "again" false; Scheduled 0;
            CallSendSearchRequest "s1" [S754_zero false] true;
            CallStartBidirectionalStream "s2"]
           (Embedding "world") false Hit eq_refl eq_refl).
Defined.

(** ** C3: the completion callback *)



(** ** C4: the half-close of a final send *)

(** C4 as stated fails.  The final embedding send on "s1" writes and then
    half-closes the stream; the search vector sent on "s1" after it is
    written to that stream all the same. *)
Lemma message_sent_after_final_send :
  let s1 := (sendEmbeddingRequest remote "s1" "hello" true one_session).2 in
  let r := sendSearchRequest remote "s1" [S754_zero false] true s1 in
  since one_session s1
  = [EvWrite 0 (embedding_request "s1" "hello" true); EvWritesDone 0] ∧
  since s1 r.2 = [EvWrite 0 (search_request "s1" [S754_zero false] true)].
Proof. vm_compute. repeat split. Qed.

(** C4 (amended): an embedding send on a session that is stored with its flag
    set writes its message, marked final or not as the caller said, and
    returns the transport's answer to the write; when [is_final] is set,
    [WritesDone] on the same stream follows the write directly, within the
    same call, and when it is not set nothing follows.  The stored context
    is the same afterwards: nothing in the client bars a later send. *)
Theorem final_embedding_send_half_closes (E : Env) (s : State) (id text : string)
    (it : StreamContext) (fin : bool) :
  active_streams_ s !! id = Some it → active it = true →
  let r := sendEmbeddingRequest E id text fin s in
  r.1 = env_write E (stream it) (embedding_request id text fin) (trace s) ∧
  cq_is_final_chunk (embedding_request id text fin) = fin ∧
  since s r.2
  = EvWrite (stream it) (embedding_request id text fin)
      :: (if fin then [EvWritesDone (stream it)] else []) ∧
  active_streams_ r.2 = active_streams_ s.
Proof.
  intros Hit Hact r.
  destruct (send_registered E id (Embedding text) fin s it Hit Hact)
    as (Hr & Hm & Htr).
  simpl in Hr, Hm, Htr. fold r in Hr, Hm, Htr.
  repeat split; [exact Hr | by apply since_app | exact Hm].
Qed.

Lemma final_embedding_send_half_closes_witness :
  active_streams_ one_session !! "s1" = Some first_context ∧
  active first_context = true ∧
  let r := sendEmbeddingRequest remote "s1" "hello" true one_session in
  r.1 = env_write remote 0 (embedding_request "s1" "hello" true)
          (trace one_session) ∧
  cq_is_final_chunk (embedding_request "s1" "hello" true) = true ∧
  since one_session r.2
  = [EvWrite 0 (embedding_request "s1" "hello" true); EvWritesDone 0] ∧
  active_streams_ r.2 = active_streams_ one_session.
Proof.
  assert (Hit : active_streams_ one_session !! "s1" = Some first_context)
    by (vm_compute; reflexivity).
  split; [exact Hit |]. split; [reflexivity |].
  exact (final_embedding_send_half_closes remote one_session "s1" "hello"
           first_context true Hit eq_refl).
Defined.

(** ** C5: a stream that cannot be opened *)

(** C5 as stated fails.  With a remote that cannot be reached, the first call
    on the stub is one that could not be established; the start of "s1"
    returns "s1" all the same and stores the session under that stream. *)
Lemma start_stores_stream_that_failed_to_open :
  let r := startBidirectionalStream "s1" fresh_client in
  open_failed unreachable (calls fresh_client) ∧
  r.1 = "s1" ∧
  active_streams_ r.2 !! "s1" = Some first_context.
Proof.
  split; [| vm_compute; split; reflexivity].
  split; [| split]; [intros request tr | | intros tr]; reflexivity.
Qed.

(** C5 (amended): [startBidirectionalStream] has no failure path.  When the
    stream that it opens could not be established, it still returns the
    session id and stores the session with its flag set.  The failure shows
    afterwards: a send on the session is passed to the transport and returns
    false, and [closeStream] returns false. *)
Theorem start_has_no_failure_path (E : Env) (s : State) (id : string) :
  open_failed E (calls s) →
  let r := startBidirectionalStream id s in
  r.1 = id ∧
  active_streams_ r.2 !! id
  = Some {| context := calls s; stream := calls s; active := true;
            session_id := id |} ∧
  (∀ p fin,
     (send E id p fin r.2).1 = false ∧
     count is_write (since r.2 (send E id p fin r.2).2) = 1) ∧
  (closeStream E id r.2).1 = false.
Proof.
  intros (Hwrite & _ & Hfinish) r.
  destruct (startBidirectionalStream_fields id s) as (Hr & Hm & _).
  fold r in Hr, Hm.
  assert (Hit : active_streams_ r.2 !! id
                = Some {| context := calls s; stream := calls s;
                          active := true; session_id := id |})
    by (rewrite Hm; apply lookup_insert_eq).
  split; [exact Hr |]. split; [exact Hit |]. split.
  - intros p fin.
    destruct (send_registered E id p fin r.2 _ Hit eq_refl) as (Hs & _ & Htr).
    split; [rewrite Hs; apply Hwrite |].
    rewrite (since_app _ _ _ Htr).
    destruct p as [text|v]; [destruct fin |]; reflexivity.
  - destruct (closeStream_registered E id r.2 _ Hit) as (Hc & _).
    rewrite Hc. apply Hfinish.
Qed.

Lemma start_has_no_failure_path_witness :
  open_failed unreachable (calls fresh_client) ∧
  let r := startBidirectionalStream "s1" fresh_client in
  r.1 = "s1" ∧
  active_streams_ r.2 !! "s1"
  = Some {| context := calls fresh_client; stream := calls fresh_client;
            active := true; session_id := "s1" |} ∧
  (∀ p fin,
     (send unreachable "s1" p fin r.2).1 = false ∧
     count is_write (since r.2 (send unreachable "s1" p fin r.2).2) = 1) ∧
  (closeStream unreachable "s1" r.2).1 = false.
Proof.
  assert (Hdown : open_failed unreachable (calls fresh_client)).
  { split; [| split]; [intros request tr | | intros tr]; reflexivity. }
  split; [exact Hdown |].
  exact (start_has_no_failure_path unreachable fresh_client "s1" Hdown).
Defined.

(** ** C6: the flags of a document request *)

(** C6: [processLegalDocument] makes one call on the stub, and the request
    that it passes has the entity, summary, embedding and sentiment flags set,
    and the clause flag set exactly when the document type is "contract". *)
Theorem document_request_flags (s : State) (document_id content type : string)
    (callback : val) :
  ∃ request flags,
    since s (processLegalDocument document_id content type callback s)
    = [EvProcessLegalDocument (calls s) request] ∧
    dq_flags request = Some flags ∧
    extract_entities flags = true ∧
    generate_summary flags = true ∧
    compute_embeddings flags = true ∧
    analyze_sentiment flags = true ∧
    (detect_clauses flags = true ↔ type = "contract").
Proof.
  eexists (document_request document_id content type), _.
  split; [by apply since_app |].
  split; [reflexivity |].
  repeat split; simpl; [apply bool_decide_eq_true_1 | apply bool_decide_eq_true_2].
Qed.

(** ** C7: closing a session that is not there *)

(** C7: [closeStream] on an id that is not stored returns false and leaves
    the whole state as it was, the trace included; and whatever the first
    close of an id did, a second close of it directly after is such a call:
    it returns false and changes nothing. *)
Theorem closeStream_missing_or_twice (E : Env) (s : State) (id : string) :
  (active_streams_ s !! id = None → closeStream E id s = (false, s)) ∧
  (let s1 := (closeStream E id s).2 in closeStream E id s1 = (false, s1)).
Proof.
  split; [apply closeStream_unknown |].
  intros s1. apply closeStream_unknown.
  destruct (closeStream_frame E id s) as (_ & _ & _ & _ & Hm & _).
  fold s1 in Hm. rewrite Hm. apply lookup_delete_eq.
Qed.

Lemma closeStream_missing_or_twice_witness :
  active_streams_ fresh_client !! "s1" = None ∧
  closeStream remote "s1" fresh_client = (false, fresh_client) ∧
  (closeStream remote "s1" one_session).1 = true ∧
  (let s1 := (closeStream remote "s1" one_session).2 in
   closeStream remote "s1" s1 = (false, s1)).
Proof.
  split; [reflexivity |].
  split;
    [exact (proj1 (closeStream_missing_or_twice remote fresh_client "s1")
              eq_refl) |].
  split; [vm_compute; reflexivity |].
  exact (proj2 (closeStream_missing_or_twice remote one_session "s1")).
Defined.

(** ** C8: a send on a session that is not there or not active *)

(** A send of either kind that names an id which is not stored, or one whose
    context has its flag cleared, returns false when it runs and leaves the
    state as it was: nothing is written to the transport. *)
Theorem send_without_active_session (E : Env) (s : State) (id : string)
    (p : Payload) (fin : bool) :
  active_streams_ s !! id = None ∨
  (∃ it, active_streams_ s !! id = Some it ∧ active it = false) →
  send E id p fin s = (false, s) ∧ since s (send E id p fin s).2 = [].
Proof.
  intros Hid.
  assert (Hsend : send E id p fin s = (false, s)).
  { apply send_rejected. destruct Hid as [-> | (it & -> & Hact)]; done. }
  split; [exact Hsend |]. rewrite Hsend. apply since_refl.
Qed.

Lemma send_without_active_session_witness :
  active_streams_ fresh_client !! "s1" = None ∧
  (send remote "s1" (Embedding "hello") false fresh_client
   = (false, fresh_client)) ∧
  active_streams_ flag_cleared !! "s1" = Some (deactivate first_context) ∧
  (send remote "s1" (SearchVector [S754_zero false]) true flag_cleared
   = (false, flag_cleared)).
Proof.
  assert (H1 : active_streams_ fresh_client !! "s1" = None) by reflexivity.
  assert (H2 : active_streams_ flag_cleared !! "s1"
               = Some (deactivate first_context))
    by (vm_compute; reflexivity).
  split; [exact H1 |].
  split;
    [exact (proj1 (send_without_active_session remote fresh_client "s1"
                     (Embedding "hello") false (or_introl H1))) |].
  split; [exact H2 |].
  exact (proj1 (send_without_active_session remote flag_cleared "s1"
                  (SearchVector [S754_zero false]) true
                  (or_intror (ex_intro _ _ (conj H2 eq_refl))))).
Defined.

(** C8: the code does not keep to the claim.  Both sends begin with the
    [lock_guard] on [streams_mutex_], and [readStreamResponses] holds that
    mutex from its lookup until it has called the completion callback.  While
    a reader waits in [Read], a send waits at its first statement whatever
    id it names, also one that is stored nowhere.  Nothing that the caller
    calls and no thread that starts takes the mutex from the reader: the send
    waits until the remote has sent the rest of the stream and ended it. *)
Theorem send_waits_while_a_reader_reads (E : Env) (w : Locked) (rid : string)
    (it : StreamContext) :
  reading w = Some (rid, it) →
  (∀ id text fin, call E (CallSendEmbeddingRequest id text fin) w = None) ∧
  (∀ id v fin, call E (CallSendSearchRequest id v fin) w = None) ∧
  (∀ c w', call E c w = Some w' → reading w' = Some (rid, it)) ∧
  (∀ i w', thread_starts E i w = Some w' → reading w' = Some (rid, it)).
Proof.
  intros Hw. repeat split.
  - intros id text fin. unfold call. by rewrite Hw.
  - intros id v fin. unfold call. by rewrite Hw.
  - intros c w'. unfold call. rewrite Hw.
    destruct c; simpl; intros [= <-]; done.
  - intros i w'. unfold thread_starts. rewrite Hw.
    destruct (threads (object w) !! i) as [[id|r cb|r cb|r cb]|];
      intros [= <-]; done.
Qed.

Lemma send_waits_while_a_reader_reads_witness :
  let w1 := {| object := set_threads [] one_session;
               reading := Some ("s1", first_context) |} in
  thread_starts remote 0 {| object := one_session; reading := None |}
  = Some w1 ∧
  reading w1 = Some ("s1", first_context) ∧
  active_streams_ (object w1) !! "nobody" = None ∧
  call remote (CallSendEmbeddingRequest "nobody" "hello" false) w1 = None ∧
  call remote (CallSendSearchRequest "nobody" [] true) w1 = None.
Proof.
  destruct (send_waits_while_a_reader_reads remote
              {| object := set_threads [] one_session;
                 reading := Some ("s1", first_context) |}
              "s1" first_context eq_refl) as (Hembed & Hsearch & _).
  split; [vm_compute; reflexivity |]. split; [reflexivity |].
  split; [vm_compute; reflexivity |].
  split; [apply Hembed | apply Hsearch].
Defined.

(** ** C9: the connected flag *)

(** C9: whatever the remote does and whatever is called on the client or
    scheduled after its construction, [isConnected] answers true: the
    constructor sets the flag and nothing clears it, so it tells nothing
    about the channel. *)
Theorem isConnected_always_true (E : Env) (endpoint : string) (l : list Call) :
  isConnected (run E l (LegalGrpcWebClient endpoint)) = true.
Proof. unfold isConnected. by rewrite run_connected. Qed.

(** ** C10: one response callback for all sessions *)

(** C10: the callbacks are fields of the client.  Once [setResponseCallback]
    has stored a function, then, whatever is called or scheduled afterwards
    short of another [setResponseCallback], the reader of any stored session
    hands every message that it reads, in order, to that function: a callback
    set with one session in mind takes the responses of all of them. *)
Theorem response_callback_is_shared (E : Env) (s : State) (cb : val)
    (l : list Call) (id : string) (it : StreamContext) :
  forallb (λ c, negb (sets_response_callback c)) l = true →
  let s1 := run E l (setResponseCallback cb s) in
  active_streams_ s1 !! id = Some it → active it = true →
  response_callback_ s1 = Some cb ∧
  responses_delivered (since s1 (readStreamResponses E id s1))
  = map (λ response, (cb, cudaResponseToJson E response))
      (unread E (stream it) s1).
Proof.
  intros Hl s1 Hit Hact.
  assert (Hcb : response_callback_ s1 = Some cb)
    by (unfold s1; by rewrite run_response_callback).
  split; [exact Hcb |].
  rewrite (since_app _ _ _ (readStreamResponses_trace E id s1 it Hit)).
  rewrite Hcb, !responses_delivered_app, read_events_delivered by done.
  rewrite responses_delivered_cons.
  destruct (negb _), (error_callback_ s1), (completion_callback_ s1);
    simpl; by rewrite app_nil_r.
Qed.

Lemma response_callback_is_shared_witness :
  let l := [CallSendEmbeddingRequest "s2" "hello" true] in
  let s1 := run remote l (setResponseCallback 9 two_sessions) in
  forallb (λ c, negb (sets_response_callback c)) l = true ∧
  response_callback_ two_sessions = Some 5 ∧
  (active_streams_ s1 !! "s1" = Some first_context ∧
   active first_context = true) ∧
  response_callback_ s1 = Some 9 ∧
  responses_delivered (since s1 (readStreamResponses remote "s1" s1))
  = map (λ response, (9, cudaResponseToJson remote response))
      (unread remote (stream first_context) s1).
Proof.
  assert (Hit :
    active_streams_
      (run remote [CallSendEmbeddingRequest "s2" "hello" true]
         (setResponseCallback 9 two_sessions)) !! "s1"
    = Some first_context) by (vm_compute; reflexivity).
  split; [reflexivity |]. split; [reflexivity |].
  split; [split; [exact Hit | reflexivity] |].
  exact (response_callback_is_shared remote two_sessions 9
           [CallSendEmbeddingRequest "s2" "hello" true] "s1" first_context
           eq_refl Hit eq_refl).
Defined.

(** * Further properties of the client *)

(** In every state that the client can reach, a stored context has its flag
    set and sits under its own session id, its stream is one that the stub
    has opened, and no stream is stored under two ids.  A context with its
    flag cleared is never met by a send: [closeStream] clears the flag and
    erases the entry under the same lock. *)
Theorem reachable_registry_ok (E : Env) (endpoint : string) (l : list Call) :
  registry_ok (run E l (LegalGrpcWebClient endpoint)).
Proof. apply run_registry_ok, registry_ok_fresh. Qed.

(** [sendSearchRequest] on a session that is stored with its flag set writes
    its message and does nothing else on the stream, whether the message is
    marked final or not. *)
Theorem search_send_writes_only (E : Env) (s : State) (id : string)
    (v : list float) (it : StreamContext) (fin : bool) :
  active_streams_ s !! id = Some it → active it = true →
  let r := sendSearchRequest E id v fin s in
  r.1 = env_write E (stream it) (search_request id v fin) (trace s) ∧
  cq_is_final_chunk (search_request id v fin) = fin ∧
  since s r.2 = [EvWrite (stream it) (search_request id v fin)].
Proof.
  intros Hit Hact r.
  destruct (send_registered E id (SearchVector v) fin s it Hit Hact)
    as (Hr & _ & Htr).
  simpl in Hr, Htr. fold r in Hr, Htr.
  repeat split; [exact Hr | by apply since_app].
Qed.

Lemma search_send_writes_only_witness :
  active_streams_ one_session !! "s1" = Some first_context ∧
  active first_context = true ∧
  let r := sendSearchRequest remote "s1" [S754_zero false] true one_session in
  r.1 = env_write remote 0 (search_request "s1" [S754_zero false] true)
          (trace one_session) ∧
  cq_is_final_chunk (search_request "s1" [S754_zero false] true) = true ∧
  since one_session r.2
  = [EvWrite 0 (search_request "s1" [S754_zero false] true)].
Proof.
  assert (Hit : active_streams_ one_session !! "s1" = Some first_context)
    by (vm_compute; reflexivity).
  split; [exact Hit |]. split; [reflexivity |].
  exact (search_send_writes_only remote one_session "s1" [S754_zero false]
           first_context true Hit eq_refl).
Defined.

(** One run of [readStreamResponses] on a stored session finishes the stream
    once, after its last read, and reports afterwards: the error callback,
    when one is set and the status is not OK, and then the completion
    callback, when one is set. *)
Theorem reader_reports_after_finish (E : Env) (s : State) (id : string)
    (it : StreamContext) :
  active_streams_ s !! id = Some it →
  ∃ loop,
    count is_finish loop = 0 ∧
    since s (readStreamResponses E id s)
    = loop ++ [EvFinish (stream it)]
        ++ (if negb (ok (env_finish E (stream it) (trace s ++ loop)))
            then match error_callback_ s with
                 | Some cb =>
                     [EvErrorCallback cb
                        (error_message
                           (env_finish E (stream it) (trace s ++ loop)))]
                 | None => []
                 end
            else [])
        ++ match completion_callback_ s with
           | Some cb => [EvCompletionCallback cb]
           | None => []
           end.
Proof.
  intros Hit.
  exists (read_events E it (response_callback_ s) (unread E (stream it) s)).
  split.
  - generalize (unread E (stream it) s) as incoming.
    induction incoming as [|response rest IH]; simpl;
      destruct (active it); try done.
    rewrite count_cons, count_app, IH. by destruct (response_callback_ s).
  - apply since_app, (readStreamResponses_trace E id s it Hit).
Qed.

Lemma reader_reports_after_finish_witness :
  let s := setCompletionCallback 7 (setErrorCallback 6 one_session) in
  active_streams_ s !! "s1" = Some first_context ∧
  since s (readStreamResponses unreachable "s1" s)
  = [EvRead 0 false; EvFinish 0; EvErrorCallback 6 "failed to connect";
     EvCompletionCallback 7] ∧
  ∃ loop,
    count is_finish loop = 0 ∧
    since s (readStreamResponses unreachable "s1" s)
    = loop ++ [EvFinish (stream first_context)]
        ++ (if negb (ok (env_finish unreachable (stream first_context)
                           (trace s ++ loop)))
            then match error_callback_ s with
                 | Some cb =>
                     [EvErrorCallback cb
                        (error_message
                           (env_finish unreachable (stream first_context)
                              (trace s ++ loop)))]
                 | None => []
                 end
            else [])
        ++ match completion_callback_ s with
           | Some cb => [EvCompletionCallback cb]
           | None => []
           end.
Proof.
  assert (Hit :
    active_streams_ (setCompletionCallback 7 (setErrorCallback 6 one_session))
      !! "s1" = Some first_context) by (vm_compute; reflexivity).
  split; [exact Hit |]. split; [vm_compute; reflexivity |].
  exact (reader_reports_after_finish unreachable _ "s1" first_context Hit).
Defined.

(** An id can be used again after its session was closed: the close leaves
    nothing stored under the id, and a start under it stores a new stream. *)
Theorem start_after_close (E : Env) (s : State) (id : string) :
  let s1 := (closeStream E id s).2 in
  let r := startBidirectionalStream id s1 in
  active_streams_ s1 !! id = None ∧
  r.1 = id ∧
  active_streams_ r.2 !! id
  = Some {| context := calls s; stream := calls s; active := true;
            session_id := id |}.
Proof.
  intros s1 r.
  destruct (closeStream_frame E id s) as (_ & _ & _ & _ & Hm & Hcalls & _).
  fold s1 in Hm, Hcalls.
  destruct (startBidirectionalStream_fields id s1) as (Hr & Hm' & _).
  fold r in Hr, Hm'.
  split; [rewrite Hm; apply lookup_delete_eq |].
  split; [exact Hr |].
  rewrite Hm', Hcalls. apply lookup_insert_eq.
Qed.

(** * Streams that have been given up *)

Lemma count_nil (p : Event → bool) : count p [] = 0.
Proof. reflexivity. Qed.

Lemma count_zero_filter (p : Event → bool) (l : list Event) :
  count p l = 0 → filter (λ e, p e = true) l = [].
Proof. unfold count. apply nil_length_inv. Qed.

Lemma filter_app_single (p : Event → bool) (l : list Event) (e : Event) :
  p e = true → count p l = 0 →
  filter (λ e, p e = true) (l ++ [e]) = [e].
Proof.
  intros He Hl. rewrite filter_app, (count_zero_filter p l Hl). simpl.
  rewrite filter_cons. case_decide; [done | congruence].
Qed.

Lemma read_events_off_stream (E : Env) (it : StreamContext) (h : nat)
    (callback : option val) (incoming : list CudaResponse) :
  stream it ≠ h →
  count (on_stream h) (read_events E it callback incoming) = 0.
Proof.
  intros Hne. induction incoming as [|response rest IH]; simpl;
    destruct (active it); try done.
  - rewrite count_cons. simpl. by rewrite bool_decide_eq_false_2.
  - rewrite count_cons, count_app, IH. simpl.
    rewrite bool_decide_eq_false_2 by done. by destruct callback.
Qed.

Lemma reader_events_off_stream {R : Type} (E : Env) (to_json : R → string)
    (reader h : nat) (callback : val) (incoming : list R) :
  reader ≠ h →
  count (on_stream h) (reader_events E to_json reader callback incoming) = 0.
Proof.
  intros Hne. induction incoming as [|response rest IH]; simpl.
  - rewrite count_cons. simpl. by rewrite bool_decide_eq_false_2.
  - rewrite count_cons. simpl. rewrite bool_decide_eq_false_2 by done.
    destruct (env_json_parse E _); [| done].
    by rewrite count_cons, IH.
Qed.

Lemma run_job_trace {R : Type} (E : Env) (to_json : R → string)
    (reader : nat) (callback : val) (incoming : list R) (failed : string)
    (s : State) :
  ∃ evs,
    trace (job_thread E to_json reader callback incoming failed s)
    = trace s ++ evs ∧
    ∀ h, reader ≠ h → count (on_stream h) evs = 0.
Proof.
  eexists. split; [apply job_thread_trace |].
  intros h Hr.
  rewrite count_app, reader_events_off_stream by done.
  destruct (reader_returns _ _ _); [| done].
  rewrite count_cons. simpl. rewrite bool_decide_eq_false_2 by done.
  by destruct (negb _).
Qed.

(** The calls that a thread makes are on the stream stored under its id,
    or on its own reader. *)
Lemma run_thread_trace (E : Env) (t : Thread) (s : State) :
  ∃ evs, trace (run_thread E t s) = trace s ++ evs ∧
    ∀ h, (∀ id c, active_streams_ s !! id = Some c → stream c ≠ h) →
         thread_reader t ≠ Some h → count (on_stream h) evs = 0.
Proof.
  destruct t as [id|reader cb|reader cb|reader cb]; simpl.
  - destruct (active_streams_ s !! id) as [it|] eqn:Hit.
    + eexists. split; [apply (readStreamResponses_trace E id s it Hit) |].
      intros h Hstored _. specialize (Hstored id it Hit).
      rewrite !count_app, read_events_off_stream by done.
      rewrite count_cons. simpl. rewrite bool_decide_eq_false_2 by done.
      destruct (negb _), (error_callback_ s), (completion_callback_ s);
        reflexivity.
    + exists []. rewrite readStreamResponses_unknown by done.
      split; [by rewrite app_nil_r | done].
  - destruct (run_job_trace E documentResponseToJson reader cb
                (env_document_responses E reader)
                "Document processing failed: " s) as (evs & Htr & Hoff).
    exists evs. split; [exact Htr |].
    intros h _ Hne. apply Hoff. congruence.
  - destruct (run_job_trace E searchResponseToJson reader cb
                (env_search_responses E reader)
                "Semantic search failed: " s) as (evs & Htr & Hoff).
    exists evs. split; [exact Htr |].
    intros h _ Hne. apply Hoff. congruence.
  - destruct (run_job_trace E similarityResponseToJson reader cb
                (env_similarity_responses E reader)
                "Case similarity analysis failed: " s) as (evs & Htr & Hoff).
    exists evs. split; [exact Htr |].
    intros h _ Hne. apply Hoff. congruence.
Qed.

Lemma elem_of_delete_thread (t : Thread) (i : nat) (l : list Thread) :
  t ∈ delete i l → t ∈ l.
Proof. apply list_elem_of_delete_inv. Qed.

(** Whatever is called or scheduled, the calls that it makes leave a stream
    that has been given up alone. *)
Lemma step_trace (E : Env) (s : State) (c : Call) :
  ∃ evs, trace (step E s c) = trace s ++ evs ∧
    ∀ h, released h s → count (on_stream h) evs = 0.
Proof.
  destruct c as [cb|cb|cb|id|id text fin|id v fin|d content type cb
                |q coll k cb|b ids cb|id| |i]; simpl;
    try (exists []; split; [by rewrite app_nil_r | done]);
    try (eexists; split; [reflexivity | done]).
  - eexists. split; [by rewrite <- app_assoc | done].
  - change (sendEmbeddingRequest E id text fin s)
      with (send E id (Embedding text) fin s).
    destruct (active_streams_ s !! id) as [it|] eqn:Hit;
      [destruct (active it) eqn:Hact |].
    + destruct (send_registered E id (Embedding text) fin s it Hit Hact)
        as (_ & _ & Htr).
      eexists. split; [exact Htr |].
      intros h (_ & Hstored & _). specialize (Hstored id it Hit).
      destruct fin; rewrite !count_cons; simpl;
        by rewrite !bool_decide_eq_false_2.
    + exists []. rewrite (send_rejected E id (Embedding text) fin s)
        by (by rewrite Hit).
      split; [by rewrite app_nil_r | done].
    + exists []. rewrite (send_rejected E id (Embedding text) fin s)
        by (by rewrite Hit).
      split; [by rewrite app_nil_r | done].
  - change (sendSearchRequest E id v fin s)
      with (send E id (SearchVector v) fin s).
    destruct (active_streams_ s !! id) as [it|] eqn:Hit;
      [destruct (active it) eqn:Hact |].
    + destruct (send_registered E id (SearchVector v) fin s it Hit Hact)
        as (_ & _ & Htr).
      eexists. split; [exact Htr |].
      intros h (_ & Hstored & _). specialize (Hstored id it Hit).
      rewrite !count_cons; simpl; by rewrite !bool_decide_eq_false_2.
    + exists []. rewrite (send_rejected E id (SearchVector v) fin s)
        by (by rewrite Hit).
      split; [by rewrite app_nil_r | done].
    + exists []. rewrite (send_rejected E id (SearchVector v) fin s)
        by (by rewrite Hit).
      split; [by rewrite app_nil_r | done].
  - destruct (active_streams_ s !! id) as [it|] eqn:Hit.
    + destruct (closeStream_registered E id s it Hit) as (_ & _ & Htr).
      eexists. split; [exact Htr |].
      intros h (_ & Hstored & _). specialize (Hstored id it Hit).
      rewrite !count_cons; simpl; by rewrite !bool_decide_eq_false_2.
    + exists []. rewrite closeStream_unknown by done.
      split; [by rewrite app_nil_r | done].
  - unfold schedule. destruct (threads s !! i) as [t|] eqn:Ht.
    + destruct (run_thread_trace E t (set_threads (delete i (threads s)) s))
        as (evs & Htr & Hoff).
      exists evs. split; [exact Htr |].
      intros h (_ & Hstored & Hthreads). apply Hoff; [exact Hstored |].
      apply Hthreads. by eapply list_elem_of_lookup_2.
    + exists []. split; [by rewrite app_nil_r | done].
Qed.

Lemma step_released (E : Env) (s : State) (c : Call) (h : nat) :
  released h s → released h (step E s c).
Proof.
  intros (Hlt & Hstored & Hthreads).
  destruct c as [cb|cb|cb|id|id text fin|id v fin|d content type cb
                |q coll k cb|b ids cb|id| |i]; simpl;
    try (by repeat split).
  - repeat split; simpl; [lia | |].
    + intros id' c. rewrite lookup_insert. case_decide.
      * intros [= <-]. simpl. lia.
      * apply Hstored.
    + intros t [Ht | ->%list_elem_of_singleton]%elem_of_app;
        [by apply Hthreads | done].
  - destruct (send_frame E id (Embedding text) fin s) as (_&_&_&_&Hm&Hc&Ht).
    simpl in Hm, Hc, Ht. repeat split; rewrite ?Hm, ?Hc, ?Ht; done.
  - destruct (send_frame E id (SearchVector v) fin s) as (_&_&_&_&Hm&Hc&Ht).
    simpl in Hm, Hc, Ht. repeat split; rewrite ?Hm, ?Hc, ?Ht; done.
  - repeat split; simpl; [lia | done |].
    intros t [Ht | ->%list_elem_of_singleton]%elem_of_app;
      [by apply Hthreads | simpl; intros [= ?]; lia].
  - repeat split; simpl; [lia | done |].
    intros t [Ht | ->%list_elem_of_singleton]%elem_of_app;
      [by apply Hthreads | simpl; intros [= ?]; lia].
  - repeat split; simpl; [lia | done |].
    intros t [Ht | ->%list_elem_of_singleton]%elem_of_app;
      [by apply Hthreads | simpl; intros [= ?]; lia].
  - destruct (closeStream_frame E id s) as (_&_&_&_&Hm&Hc&Ht).
    repeat split; rewrite ?Hm, ?Hc, ?Ht; [done | | done].
    intros id' c Hc'. apply (Hstored id' c).
    by eapply lookup_weaken; [| apply delete_subseteq].
  - unfold schedule. destruct (threads s !! i) as [t|] eqn:Hi;
      [| by repeat split].
    destruct (run_thread_frame E t (set_threads (delete i (threads s)) s))
      as (_&_&_&_&Hm&Hc&Ht).
    simpl in Hm, Hc, Ht. repeat split; rewrite ?Hm, ?Hc, ?Ht; [done .. |].
    intros t' Ht'. by apply Hthreads, (elem_of_delete_thread t' i).
Qed.

Lemma run_released (E : Env) (h : nat) (l : list Call) :
  ∀ s, released h s →
       released h (run E l s) ∧
       ∃ evs, trace (run E l s) = trace s ++ evs ∧ count (on_stream h) evs = 0.
Proof.
  induction l as [|c l IH]; intros s Hs; simpl.
  - split; [done |]. exists []. by rewrite app_nil_r.
  - destruct (step_trace E s c) as (evs1 & Htr1 & Hoff1).
    destruct (IH (step E s c) (step_released E s c h Hs))
      as (Hrel & evs2 & Htr2 & Hoff2).
    split; [exact Hrel |]. exists (evs1 ++ evs2).
    split; [by rewrite Htr2, Htr1, <- app_assoc |].
    rewrite count_app, Hoff2, (Hoff1 h Hs). done.
Qed.

Lemma run_trace (E : Env) (l : list Call) :
  ∀ s, ∃ evs, trace (run E l s) = trace s ++ evs.
Proof.
  induction l as [|c l IH]; intros s; simpl.
  - exists []. by rewrite app_nil_r.
  - destruct (step_trace E s c) as (evs1 & Htr1 & _).
    destruct (IH (step E s c)) as (evs2 & Htr2).
    exists (evs1 ++ evs2). by rewrite Htr2, Htr1, <- app_assoc.
Qed.

(** * What has been read *)

Lemma read_loop_consumed_other (E : Env) (it : StreamContext) (h : nat)
    (incoming : list CudaResponse) :
  h ≠ stream it →
  ∀ s, consumed (read_loop E it incoming s) !! h = consumed s !! h.
Proof.
  intros Hne. induction incoming as [|response rest IH]; intros s; simpl;
    destruct (active it); try done.
  destruct (response_callback_ s); rewrite IH; simpl;
    by rewrite lookup_insert_ne.
Qed.

(** With the flag set, the loop takes all that is there. *)
Lemma read_loop_consumed_own (E : Env) (it : StreamContext)
    (incoming : list CudaResponse) :
  active it = true →
  ∀ s, default 0 (consumed (read_loop E it incoming s) !! stream it)
       = default 0 (consumed s !! stream it) + length incoming.
Proof.
  intros Hact. induction incoming as [|response rest IH]; intros s; simpl;
    rewrite Hact; simpl; [lia |].
  destruct (response_callback_ s); rewrite IH; simpl;
    rewrite lookup_insert_eq; simpl; lia.
Qed.

Lemma readStreamResponses_consumed (E : Env) (id : string) (s : State)
    (it : StreamContext) :
  active_streams_ s !! id = Some it →
  consumed (readStreamResponses E id s)
  = consumed (read_loop E it (unread E (stream it) s) s).
Proof.
  intros Hit. unfold readStreamResponses. rewrite Hit. cbn zeta.
  set (s1 := read_loop E it (unread E (stream it) s) s).
  destruct (negb _); [destruct (error_callback_ _) |];
    destruct (completion_callback_ _); reflexivity.
Qed.

Lemma reader_loop_consumed {R : Type} (E : Env) (to_json : R → string)
    (reader : nat) (callback : val) (incoming : list R) :
  ∀ s, consumed (reader_loop E to_json reader callback incoming s).1
       = consumed s.
Proof.
  induction incoming as [|response rest IH]; intros s; simpl; [done |].
  destruct (env_json_parse E _); simpl; [by rewrite IH | done].
Qed.

Lemma reader_finish_consumed (E : Env) (reader : nat) (failed : string)
    (s : State) :
  consumed (reader_finish E reader failed s) = consumed s.
Proof. unfold reader_finish. by destruct (negb _). Qed.

Lemma job_thread_consumed {R : Type} (E : Env) (to_json : R → string)
    (reader : nat) (callback : val) (incoming : list R) (failed : string)
    (s : State) :
  consumed (job_thread E to_json reader callback incoming failed s)
  = consumed s.
Proof.
  unfold job_thread. destruct (reader_loop _ _ _ _ _ _).2 eqn:Halive.
  - by rewrite reader_finish_consumed, reader_loop_consumed.
  - apply reader_loop_consumed.
Qed.

Lemma run_thread_consumed (E : Env) (t : Thread) (s : State) (h : nat) :
  (∀ id c, active_streams_ s !! id = Some c → stream c ≠ h) →
  consumed (run_thread E t s) !! h = consumed s !! h.
Proof.
  intros Hstored.
  destruct t as [id|reader cb|reader cb|reader cb]; simpl;
    try (unfold document_thread, search_thread, similarity_thread;
         by rewrite job_thread_consumed).
  destruct (active_streams_ s !! id) as [it|] eqn:Hit.
  - rewrite (readStreamResponses_consumed E id s it Hit).
    apply read_loop_consumed_other. specialize (Hstored id it Hit). congruence.
  - by rewrite readStreamResponses_unknown.
Qed.

Lemma send_consumed (E : Env) (id : string) (p : Payload) (fin : bool)
    (s : State) :
  consumed (send E id p fin s).2 = consumed s.
Proof.
  destruct p as [text|v]; simpl;
    unfold sendEmbeddingRequest, sendSearchRequest;
    destruct (active_streams_ s !! id) as [it|]; simpl; try done;
    destruct (active it); simpl; try done.
  by destruct fin.
Qed.

Lemma closeStream_consumed (E : Env) (id : string) (s : State) :
  consumed (closeStream E id s).2 = consumed s.
Proof.
  unfold closeStream. by destruct (active_streams_ s !! id).
Qed.

Lemma surroundings_ok_fresh (endpoint : string) :
  surroundings_ok (LegalGrpcWebClient endpoint).
Proof.
  split; simpl.
  - intros t h Ht. by apply elem_of_nil in Ht.
  - intros h _. apply lookup_empty.
Qed.

Lemma step_surroundings_ok (E : Env) (s : State) (c : Call) :
  registry_ok s → surroundings_ok s → surroundings_ok (step E s c).
Proof.
  intros [Hctx _] [Hthreads Hfresh].
  assert (Hjob : ∀ (s' : State) (t : Thread),
    active_streams_ s' = active_streams_ s → calls s' = S (calls s) →
    threads s' = threads s ++ [t] → consumed s' = consumed s →
    thread_reader t = Some (calls s) → surroundings_ok s').
  { intros s' t Hm Hc Ht Hcons Hreader. split.
    - intros t' h. rewrite Ht, Hm, Hc.
      intros [Hin | ->%list_elem_of_singleton]%elem_of_app Hr.
      + destruct (Hthreads t' h Hin Hr) as [Hlt Hne]. split; [lia | done].
      + assert (h = calls s) as -> by congruence. split; [lia |].
        intros id0 c0 Hc'. destruct (Hctx id0 c0 Hc') as (_&_&_&?). lia.
    - intros h Hle. rewrite Hcons. apply Hfresh. lia. }
  destruct c as [cb|cb|cb|id|id text fin|id v fin|d content type cb
                |q coll k cb|b ids cb|id| |i]; simpl;
    try (by split);
    try (by eapply Hjob).
  - split; simpl.
    + intros t h [Hin | ->%list_elem_of_singleton]%elem_of_app Hr; [| done].
      destruct (Hthreads t h Hin Hr) as [Hlt Hne]. split; [lia |].
      intros id' c. rewrite lookup_insert. case_decide.
      * intros [= <-]. simpl. lia.
      * apply Hne.
    + intros h Hle. apply Hfresh. lia.
  - destruct (send_frame E id (Embedding text) fin s) as (_&_&_&_&Hm&Hc&Ht).
    pose proof (send_consumed E id (Embedding text) fin s) as Hcons.
    simpl in Hm, Hc, Ht, Hcons. split; rewrite ?Hm, ?Hc, ?Ht, ?Hcons; done.
  - destruct (send_frame E id (SearchVector v) fin s) as (_&_&_&_&Hm&Hc&Ht).
    pose proof (send_consumed E id (SearchVector v) fin s) as Hcons.
    simpl in Hm, Hc, Ht, Hcons. split; rewrite ?Hm, ?Hc, ?Ht, ?Hcons; done.
  - destruct (closeStream_frame E id s) as (_&_&_&_&Hm&Hc&Ht).
    split; rewrite ?Hm, ?Hc, ?Ht, ?closeStream_consumed; [| done].
    intros t h Hin Hr. destruct (Hthreads t h Hin Hr) as [Hlt Hne].
    split; [done |]. intros id' c Hc'. apply (Hne id' c).
    by eapply lookup_weaken; [| apply delete_subseteq].
  - unfold schedule. destruct (threads s !! i) as [t|] eqn:Hi; [| by split].
    destruct (run_thread_frame E t (set_threads (delete i (threads s)) s))
      as (_&_&_&_&Hm&Hc&Ht).
    simpl in Hm, Hc, Ht. split; rewrite ?Hm, ?Hc, ?Ht.
    + intros t' h Hin Hr. apply (Hthreads t' h); [| done].
      by apply (elem_of_delete_thread t' i).
    + intros h Hle. rewrite run_thread_consumed; [by apply Hfresh |].
      simpl. intros id c Hc'. destruct (Hctx id c Hc') as (_&_&_&?). lia.
Qed.

(** The two invariants together, along any run. *)
Lemma run_ok (E : Env) (l : list Call) :
  ∀ s, registry_ok s → surroundings_ok s →
       registry_ok (run E l s) ∧ surroundings_ok (run E l s).
Proof.
  induction l as [|c l IH]; intros s Hreg Hsur; simpl; [done |].
  apply IH; [by apply step_registry_ok | by apply step_surroundings_ok].
Qed.

(** * Closed and replaced streams *)

(** Once [closeStream] has closed a session of a client, no call is made on
    the session's stream again, whatever is called or scheduled afterwards:
    not by a send, not by a later close or start under the same id, and not
    by the session's own reader thread when it gets to run. *)
Theorem closed_stream_is_never_used_again (E : Env) (endpoint : string)
    (l0 : list Call) (id : string) (it : StreamContext) (l : list Call) :
  let s := run E l0 (LegalGrpcWebClient endpoint) in
  active_streams_ s !! id = Some it →
  let s1 := (closeStream E id s).2 in
  count (on_stream (stream it)) (since s1 (run E l s1)) = 0.
Proof.
  intros s Hit s1.
  destruct (run_ok E l0 (LegalGrpcWebClient endpoint)
              (registry_ok_fresh endpoint) (surroundings_ok_fresh endpoint))
    as [[Hctx Hinj] [Hthreads _]].
  fold s in Hctx, Hinj, Hthreads.
  destruct (closeStream_frame E id s) as (_&_&_&_&Hm&Hc&Ht).
  fold s1 in Hm, Hc, Ht.
  assert (Hrel : released (stream it) s1).
  { repeat split; rewrite ?Hm, ?Hc, ?Ht.
    - by destruct (Hctx id it Hit) as (_&_&_&?).
    - intros id' c Hc' Heq.
      apply lookup_delete_Some in Hc' as [Hne Hc'].
      apply Hne. symmetry. by apply (Hinj id' id c it).
    - intros t Hin Hr.
      destruct (Hthreads t (stream it) Hin Hr) as [_ Hne].
      by apply (Hne id it). }
  destruct (run_released E (stream it) l s1 Hrel) as (_ & evs & Htr & Hoff).
  by rewrite (since_app _ _ _ Htr).
Qed.

Lemma closed_stream_is_never_used_again_witness :
  let s := run remote [CallStartBidirectionalStream "s1"]
             (LegalGrpcWebClient "https://legal.example") in
  let s1 := (closeStream remote "s1" s).2 in
  let l := [Scheduled 0; CallSendEmbeddingRequest "s1" "hello" true;
            CallStartBidirectionalStream "s1";
            CallSendEmbeddingRequest "s1" "hello" true; Scheduled 0;
            CallCloseStream "s1"] in
  active_streams_ s !! "s1" = Some first_context ∧
  count (on_stream 1) (since s1 (run remote l s1)) = 7 ∧
  count (on_stream (stream first_context)) (since s1 (run remote l s1)) = 0.
Proof.
  assert (Hit :
    active_streams_ (run remote [CallStartBidirectionalStream "s1"]
                       (LegalGrpcWebClient "https://legal.example")) !! "s1"
    = Some first_context) by (vm_compute; reflexivity).
  split; [exact Hit |]. split; [vm_compute; reflexivity |].
  exact (closed_stream_is_never_used_again remote "https://legal.example"
           [CallStartBidirectionalStream "s1"] "s1" first_context _ Hit).
Defined.

(** A start under an id that is in use drops the stream that was stored
    under the id: neither the start nor anything called or scheduled after
    it makes any call on that stream, so it is never half-closed, never
    finished and never read again. *)
Theorem replaced_stream_is_never_used_again (E : Env) (endpoint : string)
    (l0 : list Call) (id : string) (it : StreamContext) (l : list Call) :
  let s := run E l0 (LegalGrpcWebClient endpoint) in
  active_streams_ s !! id = Some it →
  let s1 := (startBidirectionalStream id s).2 in
  count (on_stream (stream it)) (since s (run E l s1)) = 0.
Proof.
  intros s Hit s1.
  destruct (run_ok E l0 (LegalGrpcWebClient endpoint)
              (registry_ok_fresh endpoint) (surroundings_ok_fresh endpoint))
    as [[Hctx Hinj] [Hthreads _]].
  fold s in Hctx, Hinj, Hthreads.
  destruct (startBidirectionalStream_fields id s) as (_ & Hm & Hc & Ht & Htr).
  fold s1 in Hm, Hc, Ht, Htr.
  destruct (Hctx id it Hit) as (_ & _ & _ & Hlt).
  assert (Hrel : released (stream it) s1).
  { repeat split; rewrite ?Hm, ?Hc, ?Ht.
    - lia.
    - intros id' c. rewrite lookup_insert. case_decide as Hid.
      + intros [= <-]. simpl. lia.
      + intros Hc' Heq. apply Hid. symmetry. by apply (Hinj id' id c it).
    - intros t [Hin | ->%list_elem_of_singleton]%elem_of_app Hr; [| done].
      destruct (Hthreads t (stream it) Hin Hr) as [_ Hne].
      by apply (Hne id it). }
  destruct (run_released E (stream it) l s1 Hrel) as (_ & evs & Htr' & Hoff).
  erewrite since_app; [| by rewrite Htr', Htr, <- app_assoc].
  by rewrite count_app, Hoff.
Qed.

Lemma replaced_stream_is_never_used_again_witness :
  let s := run remote [CallStartBidirectionalStream "s1"]
             (LegalGrpcWebClient "https://legal.example") in
  let s1 := (startBidirectionalStream "s1" s).2 in
  let l := [Scheduled 0; Scheduled 0; CallCloseStream "s1"] in
  active_streams_ s !! "s1" = Some first_context ∧
  count (on_stream 1) (since s (run remote l s1)) = 7 ∧
  count (on_stream (stream first_context)) (since s (run remote l s1)) = 0.
Proof.
  assert (Hit :
    active_streams_ (run remote [CallStartBidirectionalStream "s1"]
                       (LegalGrpcWebClient "https://legal.example")) !! "s1"
    = Some first_context) by (vm_compute; reflexivity).
  split; [exact Hit |]. split; [vm_compute; reflexivity |].
  exact (replaced_stream_is_never_used_again remote "https://legal.example"
           [CallStartBidirectionalStream "s1"] "s1" first_context _ Hit).
Defined.

(** * Readers *)

Lemma read_events_no_finish (E : Env) (it : StreamContext)
    (callback : option val) (incoming : list CudaResponse) :
  count is_finish (read_events E it callback incoming) = 0.
Proof.
  induction incoming as [|response rest IH]; simpl;
    destruct (active it); try done.
  rewrite count_cons, count_app, IH. by destruct callback.
Qed.

(** The thread that was detached last is the one at the end of the list. *)
Lemma schedule_last (E : Env) (s : State) (l : list Thread) (t : Thread) :
  threads s = l ++ [t] →
  schedule E (length l) s = run_thread E t (set_threads l s).
Proof.
  intros Ht. unfold schedule. rewrite Ht.
  rewrite list_lookup_middle by done.
  by rewrite delete_middle, app_nil_r.
Qed.

(** One run of the reader of a stored session with its flag set: what it
    delivers, how often it finishes and completes, and what it leaves. *)
Lemma reader_summary (E : Env) (id : string) (s : State) (it : StreamContext) :
  active_streams_ s !! id = Some it → active it = true →
  let s' := readStreamResponses E id s in
  responses_delivered (since s s')
  = match response_callback_ s with
    | Some cb =>
        map (λ response, (cb, cudaResponseToJson E response))
          (unread E (stream it) s)
    | None => []
    end ∧
  filter (λ e, is_finish e = true) (since s s') = [EvFinish (stream it)] ∧
  count is_completion (since s s')
  = match completion_callback_ s with Some _ => 1 | None => 0 end ∧
  unread E (stream it) s' = [].
Proof.
  intros Hit Hact s'.
  pose proof (readStreamResponses_trace E id s it Hit) as Htr.
  cbn zeta in Htr. fold s' in Htr.
  rewrite (since_app _ _ _ Htr). repeat split.
  - rewrite !responses_delivered_app.
    destruct (response_callback_ s) as [cb|].
    + rewrite read_events_delivered by done.
      destruct (negb _), (error_callback_ s), (completion_callback_ s);
        simpl; by rewrite app_nil_r.
    + rewrite read_events_delivered_none.
      by destruct (negb _), (error_callback_ s), (completion_callback_ s).
  - rewrite app_assoc, filter_app, filter_app_single;
      [| done | apply read_events_no_finish].
    by destruct (negb _), (error_callback_ s), (completion_callback_ s).
  - rewrite !count_app, read_events_no_completion.
    by destruct (negb _), (error_callback_ s), (completion_callback_ s).
  - unfold unread, s'.
    rewrite (readStreamResponses_consumed E id s it Hit).
    rewrite read_loop_consumed_own by done.
    apply drop_ge. unfold unread. rewrite length_drop. lia.
Qed.

(** In every state that the client can reach: when the thread of a session
    that has just been started is the next to run, it reads the stream that
    was opened for the session from its first message to its last, hands
    each message in order to the response callback if one is set, finishes
    the stream once and calls the completion callback once if one is set.
    The thread is gone afterwards and the stream has nothing unread. *)
Theorem new_session_is_read_by_its_thread (E : Env) (endpoint : string)
    (l0 : list Call) (id : string) :
  let s := run E l0 (LegalGrpcWebClient endpoint) in
  let s1 := (startBidirectionalStream id s).2 in
  let s2 := schedule E (length (threads s)) s1 in
  threads s2 = threads s ∧
  responses_delivered (since s1 s2)
  = match response_callback_ s with
    | Some cb =>
        map (λ response, (cb, cudaResponseToJson E response))
          (env_responses E (calls s))
    | None => []
    end ∧
  filter (λ e, is_finish e = true) (since s1 s2) = [EvFinish (calls s)] ∧
  count is_completion (since s1 s2)
  = match completion_callback_ s with Some _ => 1 | None => 0 end ∧
  unread E (calls s) s2 = [].
Proof.
  intros s s1 s2.
  destruct (run_ok E l0 (LegalGrpcWebClient endpoint)
              (registry_ok_fresh endpoint) (surroundings_ok_fresh endpoint))
    as [_ [_ Hfresh]].
  fold s in Hfresh.
  destruct (startBidirectionalStream_fields id s) as (_ & Hm & _ & Ht & _).
  fold s1 in Hm, Ht.
  set (s1' := set_threads (threads s) s1).
  set (it := {| context := calls s; stream := calls s; active := true;
                session_id := id |}).
  assert (Hs2 : s2 = readStreamResponses E id s1')
    by apply (schedule_last E s1 (threads s) (ReadStreamThread id) Ht).
  assert (Hit : active_streams_ s1' !! id = Some it)
    by (simpl; apply lookup_insert_eq).
  assert (Hunread : unread E (stream it) s1' = env_responses E (calls s)).
  { unfold unread. simpl. by rewrite (Hfresh (calls s)). }
  destruct (reader_summary E id s1' it Hit eq_refl) as (Hd & Hf & Hc & Hu).
  rewrite Hunread in Hd. rewrite <- Hs2 in Hd, Hf, Hc, Hu.
  split; [| done].
  rewrite Hs2.
  by destruct (readStreamResponses_frame E id s1') as (_&_&_&_&_&_&->).
Qed.

Lemma since_trans (a b c : State) (x y : list Event) :
  trace b = trace a ++ x → trace c = trace b ++ y → since a c = x ++ y.
Proof. intros Hb Hc. apply since_app. by rewrite Hc, Hb, <- app_assoc. Qed.

Lemma schedule_middle (E : Env) (s : State) (l k : list Thread) (t : Thread) :
  threads s = l ++ t :: k →
  schedule E (length l) s = run_thread E t (set_threads (l ++ k) s).
Proof.
  intros Ht. unfold schedule. rewrite Ht.
  rewrite list_lookup_middle by done. by rewrite delete_middle.
Qed.

(** A reader thread looks its session up by id when it runs, not when it was
    started.  In every state that the client can reach, when an id is started
    twice and the two threads then run, both of them read the stream of the
    second start: the first thread hands all its messages to the response
    callback, the second finds nothing left, and each of them finishes that
    stream and calls the completion callback, if one is set.  No call is
    ever made on the stream of the first start. *)
Theorem restarted_session_is_read_twice (E : Env) (endpoint : string)
    (l0 : list Call) (id : string) :
  let s := run E l0 (LegalGrpcWebClient endpoint) in
  let s1 :=
    (startBidirectionalStream id (startBidirectionalStream id s).2).2 in
  let n := length (threads s) in
  let s2 := schedule E n (schedule E n s1) in
  threads s2 = threads s ∧
  count (on_stream (calls s)) (since s s2) = 0 ∧
  filter (λ e, is_finish e = true) (since s1 s2)
  = [EvFinish (S (calls s)); EvFinish (S (calls s))] ∧
  count is_completion (since s1 s2)
  = match completion_callback_ s with Some _ => 2 | None => 0 end ∧
  responses_delivered (since s1 s2)
  = match response_callback_ s with
    | Some cb =>
        map (λ response, (cb, cudaResponseToJson E response))
          (env_responses E (S (calls s)))
    | None => []
    end.
Proof.
  intros s s1 n s2.
  destruct (run_ok E l0 (LegalGrpcWebClient endpoint)
              (registry_ok_fresh endpoint) (surroundings_ok_fresh endpoint))
    as [[Hctx _] [Hthreads Hfresh]].
  fold s in Hctx, Hthreads, Hfresh.
  set (it := {| context := S (calls s); stream := S (calls s);
                active := true; session_id := id |}).
  set (R := ReadStreamThread id).
  assert (Ht1 : threads s1 = threads s ++ [R; R])
    by (simpl; by rewrite <- app_assoc).
  assert (Hm1 : active_streams_ s1 !! id = Some it)
    by (simpl; apply lookup_insert_eq).
  (* the first of the two threads *)
  set (s1' := set_threads (threads s ++ [R]) s1).
  assert (Hsb : schedule E n s1 = readStreamResponses E id s1')
    by apply (schedule_middle E s1 (threads s) [R] R Ht1).
  set (sb := readStreamResponses E id s1') in *.
  destruct (readStreamResponses_frame E id s1')
    as (_ & Hrb & _ & Hcb & Hmb & _ & Htb).
  fold sb in Hrb, Hcb, Hmb, Htb.
  destruct (reader_summary E id s1' it Hm1 eq_refl) as (Hd1 & Hf1 & Hc1 & Hu1).
  fold sb in Hd1, Hf1, Hc1, Hu1.
  assert (Hunread : unread E (stream it) s1' = env_responses E (S (calls s))).
  { unfold unread. simpl. rewrite (Hfresh (S (calls s))) by lia. done. }
  rewrite Hunread in Hd1.
  (* the second *)
  set (sb' := set_threads (threads s) sb).
  assert (Hs2 : s2 = readStreamResponses E id sb').
  { unfold s2. rewrite Hsb. by apply (schedule_last E sb (threads s) R). }
  assert (Hm2 : active_streams_ sb' !! id = Some it) by (simpl; by rewrite Hmb).
  destruct (reader_summary E id sb' it Hm2 eq_refl) as (Hd2 & Hf2 & Hc2 & _).
  rewrite <- Hs2 in Hd2, Hf2, Hc2.
  change (unread E (stream it) sb') with (unread E (stream it) sb) in Hd2.
  rewrite Hu1 in Hd2.
  (* the two together *)
  destruct (run_trace E [Scheduled n] s1) as (x & Hx).
  change (run E [Scheduled n] s1) with (schedule E n s1) in Hx.
  rewrite Hsb in Hx.
  destruct (run_trace E [Scheduled n] sb) as (y & Hy).
  change (run E [Scheduled n] sb) with (schedule E n sb) in Hy.
  assert (Hs2' : s2 = schedule E n sb) by (unfold s2; by rewrite Hsb).
  rewrite <- Hs2' in Hy.
  assert (Hxy : since s1 s2 = x ++ y) by (by apply since_trans with sb).
  assert (Hsx : since s1' sb = x) by (by apply since_app).
  assert (Hsy : since sb' s2 = y)
    by (apply since_app; simpl; by rewrite <- Hy).
  rewrite Hsx in Hd1, Hf1, Hc1. rewrite Hsy in Hd2, Hf2, Hc2.
  split.
  { rewrite Hs2.
    by destruct (readStreamResponses_frame E id sb') as (_&_&_&_&_&_&->). }
  split.
  { assert (Hrel : released (calls s) s1).
    { repeat split.
      - simpl. lia.
      - intros id' c. simpl. rewrite !lookup_insert.
        repeat case_decide; try (intros [= <-]; simpl; lia).
        intros Hc'. destruct (Hctx id' c Hc') as (_&_&_&?). lia.
      - intros t. rewrite Ht1.
        intros [Hin | Hin]%elem_of_app Hr.
        + destruct (Hthreads t (calls s) Hin Hr). lia.
        + apply elem_of_cons in Hin as [-> | ->%list_elem_of_singleton];
            done. }
    destruct (run_released E (calls s) [Scheduled n; Scheduled n] s1 Hrel)
      as (_ & evs & Htr & Hoff).
    change (run E [Scheduled n; Scheduled n] s1) with s2 in Htr.
    erewrite since_app;
      [| rewrite Htr; simpl; rewrite <- !app_assoc; reflexivity].
    simpl. by rewrite !count_cons, Hoff. }
  rewrite Hxy, filter_app, count_app, responses_delivered_app.
  rewrite Hf1, Hf2, Hc1, Hc2, Hd1, Hd2.
  change (completion_callback_ s1') with (completion_callback_ s).
  change (completion_callback_ sb') with (completion_callback_ sb).
  change (response_callback_ s1') with (response_callback_ s).
  change (response_callback_ sb') with (response_callback_ sb).
  rewrite Hcb, Hrb.
  change (completion_callback_ s1') with (completion_callback_ s).
  change (response_callback_ s1') with (response_callback_ s).
  split; [done |].
  split; [by destruct (completion_callback_ s) |].
  destruct (response_callback_ s); simpl; by rewrite ?app_nil_r.
Qed.

(** The reader of a session takes what the remote has sent once.  A second
    run for the same session (the thread of a second start under the id, or
    of a start after the first thread has run) finds nothing to read and
    delivers nothing, and yet finishes the stream a second time and calls
    the completion callback again. *)
Theorem second_reader_run_only_finishes (E : Env) (s : State) (id : string)
    (it : StreamContext) :
  active_streams_ s !! id = Some it → active it = true →
  let s1 := readStreamResponses E id s in
  let s2 := readStreamResponses E id s1 in
  unread E (stream it) s1 = [] ∧
  responses_delivered (since s1 s2) = [] ∧
  since s1 s2
  = [EvRead (stream it) false; EvFinish (stream it)]
      ++ (if negb (ok (env_finish E (stream it)
                         (trace s1 ++ [EvRead (stream it) false])))
          then match error_callback_ s with
               | Some cb =>
                   [EvErrorCallback cb
                      (error_message
                         (env_finish E (stream it)
                            (trace s1 ++ [EvRead (stream it) false])))]
               | None => []
               end
          else [])
      ++ match completion_callback_ s with
         | Some cb => [EvCompletionCallback cb]
         | None => []
         end.
Proof.
  intros Hit Hact s1 s2.
  destruct (reader_summary E id s it Hit Hact) as (_ & _ & _ & Hu).
  fold s1 in Hu.
  destruct (readStreamResponses_frame E id s) as (_&Hr&He&Hc&Hm&_).
  fold s1 in Hr, He, Hc, Hm.
  assert (Hit1 : active_streams_ s1 !! id = Some it) by (by rewrite Hm).
  destruct (reader_summary E id s1 it Hit1 Hact) as (Hd & _).
  fold s2 in Hd. rewrite Hu in Hd.
  split; [exact Hu |]. split; [by destruct (response_callback_ s1) |].
  pose proof (readStreamResponses_trace E id s1 it Hit1) as Htr.
  cbn zeta in Htr. fold s2 in Htr.
  rewrite Hu, He, Hc in Htr. simpl in Htr. rewrite Hact in Htr.
  by rewrite (since_app _ _ _ Htr).
Qed.

Lemma second_reader_run_only_finishes_witness :
  let s := setCompletionCallback 7 (setResponseCallback 5 one_session) in
  let s1 := readStreamResponses remote "s1" s in
  let s2 := readStreamResponses remote "s1" s1 in
  (active_streams_ s !! "s1" = Some first_context ∧
   active first_context = true) ∧
  length (responses_delivered (since s s1)) = 2 ∧
  unread remote (stream first_context) s1 = [] ∧
  responses_delivered (since s1 s2) = [] ∧
  since s1 s2 = [EvRead 0 false; EvFinish 0; EvCompletionCallback 7].
Proof.
  assert (Hit :
    active_streams_ (setCompletionCallback 7
                       (setResponseCallback 5 one_session)) !! "s1"
    = Some first_context) by (vm_compute; reflexivity).
  split; [split; [exact Hit | reflexivity] |].
  split; [vm_compute; reflexivity |].
  exact (second_reader_run_only_finishes remote _ "s1" first_context
           Hit eq_refl).
Defined.

(** Messages that arrive while no response callback is set are lost: the
    reader takes them from the stream and hands them to nobody, and a
    callback that is set afterwards gets none of them from a later run of
    the reader. *)
Theorem messages_without_callback_are_lost (E : Env) (s : State) (id : string)
    (it : StreamContext) (cb : val) :
  active_streams_ s !! id = Some it → active it = true →
  response_callback_ s = None →
  let s1 := readStreamResponses E id s in
  let s2 := setResponseCallback cb s1 in
  count (λ e, match e with EvRead _ got => got | _ => false end) (since s s1)
  = length (unread E (stream it) s) ∧
  responses_delivered (since s s1) = [] ∧
  responses_delivered (since s2 (readStreamResponses E id s2)) = [].
Proof.
  intros Hit Hact Hnone s1 s2.
  destruct (reader_summary E id s it Hit Hact) as (Hd & _ & _ & Hu).
  fold s1 in Hd, Hu. rewrite Hnone in Hd.
  destruct (readStreamResponses_frame E id s) as (_&_&_&_&Hm&_).
  fold s1 in Hm.
  assert (Hit2 : active_streams_ s2 !! id = Some it) by (simpl; by rewrite Hm).
  destruct (reader_summary E id s2 it Hit2 Hact) as (Hd2 & _).
  change (unread E (stream it) s2) with (unread E (stream it) s1) in Hd2.
  rewrite Hu in Hd2. simpl in Hd2.
  split; [| by split].
  pose proof (readStreamResponses_trace E id s it Hit) as Htr.
  cbn zeta in Htr. fold s1 in Htr. rewrite (since_app _ _ _ Htr).
  rewrite Hnone, !count_app.
  assert (Hloop : ∀ incoming,
    count (λ e, match e with EvRead _ got => got | _ => false end)
      (read_events E it None incoming) = length incoming).
  { induction incoming as [|response rest IH]; simpl; rewrite Hact; [done |].
    by rewrite count_cons, IH. }
  rewrite Hloop.
  destruct (error_callback_ s), (completion_callback_ s);
    lazymatch goal with
    | |- context [if ?b then _ else _] => destruct b
    end;
    rewrite ?count_cons, ?count_nil; simpl; lia.
Qed.

Lemma messages_without_callback_are_lost_witness :
  let s1 := readStreamResponses remote "s1" one_session in
  let s2 := setResponseCallback 5 s1 in
  (active_streams_ one_session !! "s1" = Some first_context ∧
   active first_context = true ∧
   response_callback_ one_session = None) ∧
  length (unread remote (stream first_context) one_session) = 2 ∧
  responses_delivered (since one_session s1) = [] ∧
  responses_delivered (since s2 (readStreamResponses remote "s1" s2)) = [].
Proof.
  assert (Hit : active_streams_ one_session !! "s1" = Some first_context)
    by (vm_compute; reflexivity).
  split; [repeat split; exact Hit |].
  split; [vm_compute; reflexivity |].
  exact (proj2 (messages_without_callback_are_lost remote one_session "s1"
                  first_context 5 Hit eq_refl eq_refl)).
Defined.

(** * Closing *)

(** Nothing but a start under an id stores something under it. *)
Lemma step_keeps_unknown (E : Env) (s : State) (c : Call) (id : string) :
  starts_session id c = false → active_streams_ s !! id = None →
  active_streams_ (step E s c) !! id = None.
Proof.
  intros Hc Hid.
  destruct c as [cb|cb|cb|id'|id' text fin|id' v fin|d content type cb
                |q coll k cb|b ids cb|id'| |i];
    cbn [step starts_session] in *; try exact Hid.
  - apply bool_decide_eq_false in Hc. simpl. by rewrite lookup_insert_ne.
  - destruct (send_frame E id' (Embedding text) fin s) as (_&_&_&_&Hm&_).
    rewrite <- Hid. exact (f_equal (λ m, m !! id) Hm).
  - destruct (send_frame E id' (SearchVector v) fin s) as (_&_&_&_&Hm&_).
    rewrite <- Hid. exact (f_equal (λ m, m !! id) Hm).
  - destruct (closeStream_frame E id' s) as (_&_&_&_&Hm&_).
    rewrite Hm. apply lookup_delete_None. by right.
  - destruct (schedule_frame E i s) as (_&_&_&_&Hm&_). by rewrite Hm.
Qed.

Lemma run_keeps_unknown (E : Env) (l : list Call) (id : string) :
  ∀ s, forallb (λ c, negb (starts_session id c)) l = true →
       active_streams_ s !! id = None →
       active_streams_ (run E l s) !! id = None.
Proof.
  induction l as [|c l IH]; intros s Hl Hid; simpl in *; [done |].
  apply andb_true_iff in Hl as [Hc Hl].
  apply IH; [done |]. apply step_keeps_unknown; [| done].
  by apply negb_true_iff.
Qed.

(** [closeStream] on a stored session, whatever its flag: the stream is
    half-closed and then finished, the result is whether the status of that
    [Finish] is OK, and the entry is gone afterwards.  The other sessions
    keep their entries.  The session's reader thread is not stopped, it
    stays in the list; whenever it runs after the close, whatever has been
    called or scheduled in between short of a new start under the id, it
    finds no entry and returns without a call to anything. *)
Theorem closeStream_closes_one_session (E : Env) (s : State) (id : string)
    (it : StreamContext) (l : list Call) :
  active_streams_ s !! id = Some it →
  forallb (λ c, negb (starts_session id c)) l = true →
  let r := closeStream E id s in
  r.1 = ok (env_finish E (stream it) (trace s ++ [EvWritesDone (stream it)])) ∧
  since s r.2
  = [EvWritesDone (stream it); EvFinish (stream it);
     EvConsoleLog ("🔌 Closed stream for session: " +:+ c_str id)] ∧
  active_streams_ r.2 !! id = None ∧
  (∀ id', id' ≠ id → active_streams_ r.2 !! id' = active_streams_ s !! id') ∧
  threads r.2 = threads s ∧
  readStreamResponses E id (run E l r.2) = run E l r.2.
Proof.
  intros Hit Hl r.
  destruct (closeStream_registered E id s it Hit) as (Hr & Hm & Htr).
  destruct (closeStream_frame E id s) as (_&_&_&_&_&_&Ht).
  fold r in Hr, Hm, Htr, Ht.
  assert (Hgone : active_streams_ r.2 !! id = None)
    by (rewrite Hm; apply lookup_delete_eq).
  split; [exact Hr |]. split; [by apply since_app |].
  split; [exact Hgone |].
  split; [intros id' Hne; rewrite Hm; by apply lookup_delete_ne |].
  split; [exact Ht |].
  by apply readStreamResponses_unknown, run_keeps_unknown.
Qed.

Lemma closeStream_closes_one_session_witness :
  let r := closeStream unreachable "s2" two_sessions in
  let l := [CallSendEmbeddingRequest "s2" "hello" false; Scheduled 0;
            CallCloseStream "s2"; CallStartBidirectionalStream "s3"] in
  (active_streams_ two_sessions !! "s2"
   = Some {| context := 1; stream := 1; active := true; session_id := "s2" |} ∧
   forallb (λ c, negb (starts_session "s2" c)) l = true) ∧
  r.1 = false ∧
  active_streams_ r.2 !! "s2" = None ∧
  active_streams_ r.2 !! "s1" = Some first_context ∧
  threads r.2 = [ReadStreamThread "s1"; ReadStreamThread "s2"] ∧
  threads (run unreachable l r.2)
  = [ReadStreamThread "s2"; ReadStreamThread "s3"] ∧
  readStreamResponses unreachable "s2" (run unreachable l r.2)
  = run unreachable l r.2.
Proof.
  assert (Hit : active_streams_ two_sessions !! "s2"
    = Some {| context := 1; stream := 1; active := true;
              session_id := "s2" |}) by (vm_compute; reflexivity).
  destruct (closeStream_closes_one_session unreachable two_sessions "s2" _
              [CallSendEmbeddingRequest "s2" "hello" false; Scheduled 0;
               CallCloseStream "s2"; CallStartBidirectionalStream "s3"]
              Hit eq_refl)
    as (Hr & _ & Hgone & Hother & Ht & Hreader).
  split; [split; [exact Hit | reflexivity] |].
  split; [exact Hr |]. split; [exact Hgone |].
  split; [rewrite (Hother "s1") by discriminate; vm_compute; reflexivity |].
  split; [exact Ht |]. split; [vm_compute; reflexivity | exact Hreader].
Defined.

(** A final embedding send half-closes the stream, and the close of the
    session half-closes it a second time: [closeStream] calls [WritesDone]
    whether or not a final send has already done so. *)
Theorem close_after_final_send_half_closes_twice (E : Env) (s : State)
    (id text : string) (it : StreamContext) :
  active_streams_ s !! id = Some it → active it = true →
  let s1 := (sendEmbeddingRequest E id text true s).2 in
  let s2 := (closeStream E id s1).2 in
  since s s2
  = [EvWrite (stream it) (embedding_request id text true);
     EvWritesDone (stream it); EvWritesDone (stream it); EvFinish (stream it);
     EvConsoleLog ("🔌 Closed stream for session: " +:+ c_str id)].
Proof.
  intros Hit Hact s1 s2.
  destruct (send_registered E id (Embedding text) true s it Hit Hact)
    as (_ & Hm & Htr).
  simpl in Hm, Htr. fold s1 in Hm, Htr.
  assert (Hit1 : active_streams_ s1 !! id = Some it) by (by rewrite Hm).
  destruct (closeStream_registered E id s1 it Hit1) as (_ & _ & Htr2).
  fold s2 in Htr2.
  apply since_app. by rewrite Htr2, Htr, <- app_assoc.
Qed.

Lemma close_after_final_send_half_closes_twice_witness :
  let s1 := (sendEmbeddingRequest remote "s1" "hello" true one_session).2 in
  let s2 := (closeStream remote "s1" s1).2 in
  (active_streams_ one_session !! "s1" = Some first_context ∧
   active first_context = true) ∧
  count is_writes_done (since one_session s2) = 2 ∧
  since one_session s2
  = [EvWrite (stream first_context) (embedding_request "s1" "hello" true);
     EvWritesDone (stream first_context); EvWritesDone (stream first_context);
     EvFinish (stream first_context);
     EvConsoleLog ("🔌 Closed stream for session: " +:+ "s1")].
Proof.
  assert (Hit : active_streams_ one_session !! "s1" = Some first_context)
    by (vm_compute; reflexivity).
  split; [split; [exact Hit | reflexivity] |].
  split; [vm_compute; reflexivity |].
  exact (close_after_final_send_half_closes_twice remote one_session "s1"
           "hello" first_context Hit eq_refl).
Defined.

(** When the reader of a session has run to its end, the stream has been
    finished by it; a close of the session afterwards finishes the same
    stream a second time, and what the close returns is the status of that
    second [Finish]. *)
Theorem close_after_reader_finishes_twice (E : Env) (s : State) (id : string)
    (it : StreamContext) :
  active_streams_ s !! id = Some it →
  let s1 := readStreamResponses E id s in
  let r := closeStream E id s1 in
  filter (λ e, is_finish e = true) (since s r.2)
  = [EvFinish (stream it); EvFinish (stream it)] ∧
  r.1 = ok (env_finish E (stream it) (trace s1 ++ [EvWritesDone (stream it)])).
Proof.
  intros Hit s1 r.
  pose proof (readStreamResponses_trace E id s it Hit) as Htr.
  cbn zeta in Htr. fold s1 in Htr.
  destruct (readStreamResponses_frame E id s) as (_&_&_&_&Hm&_).
  fold s1 in Hm.
  assert (Hit1 : active_streams_ s1 !! id = Some it) by (by rewrite Hm).
  destruct (closeStream_registered E id s1 it Hit1) as (Hr & _ & Htr2).
  fold r in Hr, Htr2.
  split; [| exact Hr].
  erewrite since_app; [| rewrite Htr2, Htr, <- !app_assoc; reflexivity].
  rewrite !filter_app, (count_zero_filter _ _ (read_events_no_finish _ _ _ _)).
  destruct (error_callback_ s), (completion_callback_ s);
    lazymatch goal with
    | |- context [if ?b then _ else _] => destruct b
    end; reflexivity.
Qed.

Lemma close_after_reader_finishes_twice_witness :
  let s1 := readStreamResponses remote "s1" one_session in
  let r := closeStream remote "s1" s1 in
  active_streams_ one_session !! "s1" = Some first_context ∧
  filter (λ e, is_finish e = true) (since one_session r.2)
  = [EvFinish (stream first_context); EvFinish (stream first_context)] ∧
  r.1 = ok (env_finish remote (stream first_context)
              (trace s1 ++ [EvWritesDone (stream first_context)])).
Proof.
  assert (Hit : active_streams_ one_session !! "s1" = Some first_context)
    by (vm_compute; reflexivity).
  split; [exact Hit |].
  exact (close_after_reader_finishes_twice remote one_session "s1"
           first_context Hit).
Defined.

(** * One-shot jobs from start to end *)

Lemma js_calls_app (l k : list Event) :
  js_calls (l ++ k) = js_calls l ++ js_calls k.
Proof. unfold js_calls. apply omap_app. Qed.

Lemma js_calls_cons (e : Event) (l : list Event) :
  js_calls (e :: l)
  = match e with
    | EvJsCallback cb object => [(cb, object)]
    | _ => []
    end ++ js_calls l.
Proof. by destruct e. Qed.

Lemma reader_events_js_calls {R : Type} (E : Env) (to_json : R → string)
    (reader : nat) (callback : val) (incoming : list R) :
  js_calls (reader_events E to_json reader callback incoming)
  = map (λ object, (callback, object))
      (parsed_prefix E (map (λ r, c_str (to_json r)) incoming)).
Proof.
  induction incoming as [|response rest IH]; [done |].
  cbn [reader_events map parsed_prefix].
  destruct (env_json_parse E _) as [object|]; [| done].
  rewrite !js_calls_cons. simpl. by rewrite IH.
Qed.

Lemma reader_returns_all_parse {R : Type} (E : Env) (to_json : R → string)
    (incoming : list R) :
  reader_returns E to_json incoming
  = all_parse E (map (λ r, c_str (to_json r)) incoming).
Proof.
  induction incoming as [|response rest IH]; simpl; [done |].
  by destruct (env_json_parse E _).
Qed.

Lemma reader_events_counts {R : Type} (E : Env) (to_json : R → string)
    (reader : nat) (callback : val) (incoming : list R) :
  count is_finish (reader_events E to_json reader callback incoming) = 0 ∧
  count is_client_callback (reader_events E to_json reader callback incoming)
  = 0 ∧
  count is_console_error (reader_events E to_json reader callback incoming)
  = 0.
Proof.
  induction incoming as [|response rest (IH1 & IH2 & IH3)]; simpl;
    [done |].
  destruct (env_json_parse E _); [| done].
  by rewrite !count_cons, IH1, IH2, IH3.
Qed.

Lemma job_thread_outcome_gen {R : Type} (E : Env) (to_json : R → string)
    (reader : nat) (callback : val) (incoming : list R) (failed : string)
    (s : State) :
  let texts := map (λ r, c_str (to_json r)) incoming in
  ∃ loop,
    since s (job_thread E to_json reader callback incoming failed s)
    = loop
        ++ (if all_parse E texts
            then EvFinish reader
                   :: (if negb (ok (env_finish E reader (trace s ++ loop)))
                       then [EvConsoleError
                               (failed
                                  +:+ c_str (error_message
                                               (env_finish E reader
                                                  (trace s ++ loop))))]
                       else [])
            else []) ∧
    js_calls loop = map (λ object, (callback, object)) (parsed_prefix E texts) ∧
    count is_finish loop = 0 ∧ count is_console_error loop = 0 ∧
    count is_client_callback loop = 0.
Proof.
  exists (reader_events E to_json reader callback incoming).
  destruct (reader_events_counts E to_json reader callback incoming)
    as (Hf & Hcb & Herr).
  rewrite <- reader_returns_all_parse.
  split; [apply since_app, job_thread_trace |].
  split; [apply reader_events_js_calls | done].
Qed.

Lemma run_job_outcome (E : Env) (t : Thread) (reader : nat)
    (callback : val) (s : State) :
  thread_reader t = Some reader → thread_callback t = Some callback →
  ∃ loop,
    since s (run_thread E t s)
    = loop
        ++ (if all_parse E (job_texts E t)
            then EvFinish reader
                   :: (if negb (ok (env_finish E reader (trace s ++ loop)))
                       then [EvConsoleError
                               (job_failed t
                                  +:+ c_str (error_message
                                               (env_finish E reader
                                                  (trace s ++ loop))))]
                       else [])
            else []) ∧
    js_calls loop
    = map (λ object, (callback, object)) (parsed_prefix E (job_texts E t)) ∧
    count is_finish loop = 0 ∧ count is_console_error loop = 0 ∧
    count is_client_callback loop = 0.
Proof.
  destruct t as [id|r cb|r cb|r cb]; simpl; intros [= <-] [= <-];
    apply job_thread_outcome_gen.
Qed.

Lemma job_thread_off_stream {R : Type} (E : Env) (to_json : R → string)
    (reader h : nat) (callback : val) (incoming : list R) (failed : string)
    (s : State) :
  h ≠ reader →
  count (on_stream h)
    (since s (job_thread E to_json reader callback incoming failed s)) = 0.
Proof.
  intros Hne.
  destruct (run_job_trace E to_json reader callback incoming failed s)
    as (evs & Htr & Hoff).
  rewrite (since_app _ _ _ Htr). apply Hoff. congruence.
Qed.



(** A job thread keeps to itself, whatever its responses are and whether
    or not their texts parse: it calls none of the three callbacks of the
    client, makes no call on any stream but its own reader, and leaves the
    registry, the callback fields, what the sessions have still to read and
    the other waiting threads as they are. *)
Theorem job_thread_keeps_to_itself (E : Env) (t : Thread) (reader : nat)
    (s : State) :
  thread_reader t = Some reader →
  let s' := run_thread E t s in
  count is_client_callback (since s s') = 0 ∧
  (∀ h, h ≠ reader → count (on_stream h) (since s s') = 0) ∧
  active_streams_ s' = active_streams_ s ∧
  consumed s' = consumed s ∧
  threads s' = threads s ∧
  response_callback_ s' = response_callback_ s ∧
  error_callback_ s' = error_callback_ s ∧
  completion_callback_ s' = completion_callback_ s.
Proof.
  intros Hreader s'.
  destruct (run_thread_frame E t s) as (_ & Hr & He & Hc & Hm & _ & Ht).
  fold s' in Hr, He, Hc, Hm, Ht.
  assert (Hcons : consumed s' = consumed s).
  { unfold s'. destruct t as [id|r cb|r cb|r cb]; [done | ..]; simpl;
      apply job_thread_consumed. }
  assert (Hcalls : count is_client_callback (since s s') = 0).
  { assert (Hcb : ∃ cb, thread_callback t = Some cb)
      by (destruct t; [done | eauto ..]).
    destruct Hcb as [cb Hcb].
    destruct (run_job_outcome E t reader cb s Hreader Hcb)
      as (loop & Hsince & _ & _ & _ & Hloop).
    fold s' in Hsince. rewrite Hsince, count_app, Hloop.
    destruct (all_parse _ _); [| done].
    rewrite count_cons. by destruct (negb _). }
  split; [exact Hcalls |].
  split; [| by repeat split].
  intros h Hne. unfold s'.
  destruct t as [id|r cb|r cb|r cb]; [done | ..]; simpl in *;
    injection Hreader as ->; by apply job_thread_off_stream.
Qed.

Lemma job_thread_keeps_to_itself_witness :
  let t := SearchThread 2 4 in
  let s := performSemanticSearch "q" "cases" 10 4 two_sessions in
  thread_reader t = Some 2 ∧
  length (since s (run_thread remote t s)) = 4 ∧
  count is_client_callback (since s (run_thread remote t s)) = 0 ∧
  count (on_stream 0) (since s (run_thread remote t s)) = 0 ∧
  active_streams_ (run_thread remote t s) = active_streams_ s.
Proof.
  destruct (job_thread_keeps_to_itself remote (SearchThread 2 4) 2
              (performSemanticSearch "q" "cases" 10 4 two_sessions) eq_refl)
    as (Hcb & Hoff & Hm & _).
  split; [reflexivity |]. split; [vm_compute; reflexivity |].
  split; [exact Hcb |]. split; [apply Hoff; discriminate | exact Hm].
Defined.

(** * The JSON text of a response *)

Lemma string_app_nil_r (a : string) : a +:+ EmptyString = a.
Proof.
  induction a as [|c a IH]; [done |].
  change (String c (a +:+ EmptyString) = String c a). by rewrite IH.
Qed.

Lemma string_app_assoc (a b c : string) : (a +:+ b) +:+ c = a +:+ (b +:+ c).
Proof.
  induction a as [|x a IH]; [done |].
  change (String x ((a +:+ b) +:+ c) = String x (a +:+ (b +:+ c))).
  by rewrite IH.
Qed.

Lemma ends_prepend (a t suffix : string) :
  (∃ body, t = body +:+ suffix) → ∃ body, a +:+ t = body +:+ suffix.
Proof.
  intros [body ->]. exists (a +:+ body). by rewrite string_app_assoc.
Qed.

Lemma embeddings_to_json_rest (E : Env) (l : list float) :
  embeddings_to_json E false l
  = match l with
    | [] => EmptyString
    | _ => "," +:+ String.concat "," (map (env_to_string E) l)
    end.
Proof.
  induction l as [|x rest IH]; [done |].
  change (embeddings_to_json E false (x :: rest))
    with ("," +:+ env_to_string E x +:+ embeddings_to_json E false rest).
  rewrite IH. destruct rest as [|y rest]; [| done].
  simpl. by rewrite string_app_nil_r.
Qed.

(** The embeddings of a response are written as their texts joined by
    commas: the comma that the loop puts before every element but the first
    neither leads nor trails. *)
Theorem embeddings_joined_by_commas (E : Env) (l : list float) :
  embeddings_to_json E true l
  = String.concat "," (map (env_to_string E) l).
Proof.
  destruct l as [|x rest]; [done |].
  change (embeddings_to_json E true (x :: rest))
    with (env_to_string E x +:+ embeddings_to_json E false rest).
  rewrite embeddings_to_json_rest.
  destruct rest as [|y rest]; [| done].
  simpl. by rewrite string_app_nil_r.
Qed.

(** A response that carries no metrics is rendered as a text that ends in a
    comma followed by the closing brace: the comma that is written after the
    status, or after the embeddings when there are some, has nothing after
    it.  With metrics the text ends in two closing braces. *)
Theorem cudaResponseToJson_ending (E : Env) (response : CudaResponse) :
  ∃ body,
    cudaResponseToJson E response
    = body +:+ match cuda_metrics response with
               | None => ",}"
               | Some _ => "}}"
               end.
Proof.
  unfold cudaResponseToJson. cbn zeta.
  destruct (cuda_metrics response) as [metrics|];
    destruct (bool_decide _);
    rewrite !string_app_assoc;
    repeat first [ by exists EmptyString
                 | by exists "]"
                 | apply ends_prepend ].
Qed.

(** * Sessions side by side *)

(** In every state that the client can reach, two sessions stored under
    different ids have different streams, and what is done to one of them
    leaves the other alone: a send on it, its close, or a run of its reader
    makes no call on the other's stream, takes nothing from what the other
    has still to read, and leaves the other's entry as it is. *)
Theorem sessions_are_isolated (E : Env) (endpoint : string) (l0 : list Call)
    (id id' : string) (it it' : StreamContext) :
  let s := run E l0 (LegalGrpcWebClient endpoint) in
  active_streams_ s !! id = Some it → active_streams_ s !! id' = Some it' →
  id ≠ id' →
  stream it ≠ stream it' ∧
  ∀ s',
    (∃ p fin, s' = (send E id p fin s).2) ∨ s' = (closeStream E id s).2 ∨
    s' = readStreamResponses E id s →
    count (on_stream (stream it')) (since s s') = 0 ∧
    unread E (stream it') s' = unread E (stream it') s ∧
    active_streams_ s' !! id' = Some it'.
Proof.
  intros s Hit Hit' Hne.
  assert (Hs : registry_ok s) by apply run_registry_ok, registry_ok_fresh.
  destruct Hs as [Hctx Hinj].
  assert (Hstream : stream it ≠ stream it')
    by (intros Heq; by apply Hne, (Hinj id id' it it')).
  destruct (Hctx id it Hit) as (Hact & _).
  split; [exact Hstream |].
  intros s' [(p & fin & ->) | [-> | ->]].
  - destruct (send_registered E id p fin s it Hit Hact) as (_ & Hm & Htr).
    rewrite (since_app _ _ _ Htr). unfold unread.
    rewrite send_consumed, Hm. split; [| done].
    destruct p as [text|v]; [destruct fin |];
      rewrite !count_cons; simpl; by rewrite !bool_decide_eq_false_2.
  - destruct (closeStream_registered E id s it Hit) as (_ & Hm & Htr).
    rewrite (since_app _ _ _ Htr). unfold unread.
    rewrite closeStream_consumed, Hm, lookup_delete_ne by done.
    split; [| done].
    rewrite !count_cons; simpl; by rewrite !bool_decide_eq_false_2.
  - rewrite (since_app _ _ _ (readStreamResponses_trace E id s it Hit)).
    destruct (readStreamResponses_frame E id s) as (_&_&_&_&Hm&_).
    unfold unread.
    rewrite (readStreamResponses_consumed E id s it Hit).
    rewrite read_loop_consumed_other, Hm by done.
    split; [| done].
    rewrite !count_app, read_events_off_stream, count_cons by done.
    simpl. rewrite bool_decide_eq_false_2 by done.
    destruct (error_callback_ s), (completion_callback_ s);
      lazymatch goal with
      | |- context [if ?b then _ else _] => destruct b
      end; reflexivity.
Qed.

Lemma sessions_are_isolated_witness :
  let s := run remote [CallSetResponseCallback 5;
                       CallStartBidirectionalStream "s1";
                       CallStartBidirectionalStream "s2"]
             (LegalGrpcWebClient "https://legal.example") in
  let second :=
    {| context := 1; stream := 1; active := true; session_id := "s2" |} in
  (active_streams_ s !! "s1" = Some first_context ∧
   active_streams_ s !! "s2" = Some second ∧ "s1" ≠ "s2") ∧
  length (responses_delivered (since s (readStreamResponses remote "s1" s)))
  = 2 ∧
  count (on_stream 1) (since s (readStreamResponses remote "s1" s)) = 0 ∧
  unread remote 1 (readStreamResponses remote "s1" s) = unread remote 1 s ∧
  active_streams_ (readStreamResponses remote "s1" s) !! "s2" = Some second.
Proof.
  assert (H1 :
    active_streams_
      (run remote [CallSetResponseCallback 5;
                   CallStartBidirectionalStream "s1";
                   CallStartBidirectionalStream "s2"]
         (LegalGrpcWebClient "https://legal.example")) !! "s1"
    = Some first_context) by (vm_compute; reflexivity).
  assert (H2 :
    active_streams_
      (run remote [CallSetResponseCallback 5;
                   CallStartBidirectionalStream "s1";
                   CallStartBidirectionalStream "s2"]
         (LegalGrpcWebClient "https://legal.example")) !! "s2"
    = Some {| context := 1; stream := 1; active := true;
              session_id := "s2" |}) by (vm_compute; reflexivity).
  assert (Hne : "s1" ≠ "s2") by discriminate.
  split; [repeat split; assumption |].
  split; [vm_compute; reflexivity |].
  exact (proj2 (sessions_are_isolated remote "https://legal.example" _
                  "s1" "s2" _ _ H1 H2 Hne)
           _ (or_intror (or_intror eq_refl))).
Defined.

(** * Who calls the callbacks *)

(** No method that the caller can call calls any of the three callbacks of
    the client: not the setters, not a start, a send, a close, the start of
    a job or [isConnected].  A write that fails and a close whose status is
    not OK show in the value that the method returns and nowhere else; the
    callbacks are called from reader threads only. *)
Theorem methods_call_no_callback (E : Env) (s : State) (c : Call) :
  (∀ i, c ≠ Scheduled i) →
  count is_client_callback (since s (step E s c)) = 0.
Proof.
  intros Hc.
  destruct c as [cb|cb|cb|id|id text fin|id v fin|d content type cb
                |q coll k cb|b ids cb|id| |i]; cbn [step];
    try (by rewrite (since_app _ _ []); [| simpl; by rewrite app_nil_r]);
    try (by erewrite since_app; [| simpl; reflexivity]).
  - destruct (startBidirectionalStream_fields id s) as (_&_&_&_&Htr).
    by rewrite (since_app _ _ _ Htr).
  - change (sendEmbeddingRequest E id text fin s)
      with (send E id (Embedding text) fin s).
    destruct (active_streams_ s !! id) as [it|] eqn:Hit;
      [destruct (active it) eqn:Hact |].
    + destruct (send_registered E id (Embedding text) fin s it Hit Hact)
        as (_ & _ & Htr).
      rewrite (since_app _ _ _ Htr). by destruct fin.
    + rewrite send_rejected by (by rewrite Hit). by rewrite since_refl.
    + rewrite send_rejected by (by rewrite Hit). by rewrite since_refl.
  - change (sendSearchRequest E id v fin s)
      with (send E id (SearchVector v) fin s).
    destruct (active_streams_ s !! id) as [it|] eqn:Hit;
      [destruct (active it) eqn:Hact |].
    + destruct (send_registered E id (SearchVector v) fin s it Hit Hact)
        as (_ & _ & Htr).
      by rewrite (since_app _ _ _ Htr).
    + rewrite send_rejected by (by rewrite Hit). by rewrite since_refl.
    + rewrite send_rejected by (by rewrite Hit). by rewrite since_refl.
  - destruct (active_streams_ s !! id) as [it|] eqn:Hit.
    + destruct (closeStream_registered E id s it Hit) as (_ & _ & Htr).
      by rewrite (since_app _ _ _ Htr).
    + rewrite closeStream_unknown by done. by rewrite since_refl.
  - by destruct (Hc i).
Qed.

Lemma methods_call_no_callback_witness :
  let s := setErrorCallback 6 (setCompletionCallback 7 one_session) in
  (∀ i, CallCloseStream "s1" ≠ Scheduled i) ∧
  (closeStream unreachable "s1" s).1 = false ∧
  count is_client_callback
    (since s (step unreachable s (CallCloseStream "s1"))) = 0.
Proof.
  assert (Hc : ∀ i, CallCloseStream "s1" ≠ Scheduled i) by discriminate.
  split; [exact Hc |]. split; [vm_compute; reflexivity |].
  exact (methods_call_no_callback unreachable _ (CallCloseStream "s1") Hc).
Defined.

(** * Sequences of calls *)

Lemma since_step_run (E : Env) (s : State) (c : Call) (l : list Call) :
  since s (run E (c :: l) s)
  = since s (step E s c) ++ since (step E s c) (run E l (step E s c)).
Proof.
  destruct (step_trace E s c) as (evs1 & Htr1 & _).
  destruct (run_trace E l (step E s c)) as (evs2 & Htr2).
  simpl. rewrite (since_app _ _ _ Htr1), (since_app _ _ _ Htr2).
  apply since_app. by rewrite Htr2, Htr1, <- app_assoc.
Qed.

(** Messages that are sent one after the other on a session that is stored
    with its flag set are written to the session's stream in the order in
    which they were sent, each one once, whatever their kinds and whichever
    of them are marked final. *)
Theorem sends_are_written_in_order (E : Env) (id : string) (it : StreamContext)
    (msgs : list (Payload * bool)) (s : State) :
  active_streams_ s !! id = Some it → active it = true →
  filter (λ e, is_write e = true)
    (since s
       (run E (map (λ m, match m.1 with
                         | Embedding text =>
                             CallSendEmbeddingRequest id text m.2
                         | SearchVector v => CallSendSearchRequest id v m.2
                         end) msgs) s))
  = map (λ m, EvWrite (stream it) (request_of id m.1 m.2)) msgs.
Proof.
  intros Hit Hact. revert s Hit.
  induction msgs as [|[p fin] msgs IH]; intros s Hit.
  - simpl. by rewrite since_refl.
  - rewrite map_cons, since_step_run, filter_app.
    assert (Hstep : step E s (match p with
                              | Embedding text =>
                                  CallSendEmbeddingRequest id text fin
                              | SearchVector v =>
                                  CallSendSearchRequest id v fin
                              end) = (send E id p fin s).2)
      by (by destruct p).
    cbn [fst snd]. rewrite Hstep.
    destruct (send_registered E id p fin s it Hit Hact) as (_ & Hm & Htr).
    rewrite IH by (by rewrite Hm).
    rewrite (since_app _ _ _ Htr).
    destruct p as [text|v]; [destruct fin |]; reflexivity.
Qed.

Lemma sends_are_written_in_order_witness :
  (active_streams_ one_session !! "s1" = Some first_context ∧
   active first_context = true) ∧
  filter (λ e, is_write e = true)
    (since one_session
       (run remote [CallSendEmbeddingRequest "s1" "hello" false;
                    CallSendSearchRequest "s1" [S754_zero false] true;
                    CallSendEmbeddingRequest "s1" "world" true] one_session))
  = [EvWrite 0 (embedding_request "s1" "hello" false);
     EvWrite 0 (search_request "s1" [S754_zero false] true);
     EvWrite 0 (embedding_request "s1" "world" true)].
Proof.
  assert (Hit : active_streams_ one_session !! "s1" = Some first_context)
    by (vm_compute; reflexivity).
  split; [split; [exact Hit | reflexivity] |].
  exact (sends_are_written_in_order remote "s1" first_context
           [(Embedding "hello", false);
            (SearchVector [S754_zero false], true);
            (Embedding "world", true)] one_session Hit eq_refl).
Defined.

Lemma run_closes (E : Env) (ids : list string) :
  ∀ s, active_streams_ (run E (map CallCloseStream ids) s)
       = foldl (λ m id, delete id m) (active_streams_ s) ids.
Proof.
  induction ids as [|id ids IH]; intros s; simpl; [done |].
  rewrite IH.
  by destruct (closeStream_frame E id s) as (_&_&_&_&->&_).
Qed.

Lemma foldl_delete_lookup (ids : list string) :
  ∀ (m : gmap string StreamContext) id,
    foldl (λ m id, delete id m) m ids !! id
    = if bool_decide (id ∈ ids) then None else m !! id.
Proof.
  induction ids as [|id0 ids IH]; intros m id; simpl; [done |].
  rewrite IH. destruct (decide (id ∈ ids)) as [Hin | Hnin].
  - rewrite !bool_decide_eq_true_2; [done | by right | done].
  - rewrite (bool_decide_eq_false_2 _ Hnin).
    destruct (decide (id = id0)) as [-> | Hne].
    + rewrite bool_decide_eq_true_2 by left. apply lookup_delete_eq.
    + rewrite bool_decide_eq_false_2, lookup_delete_ne; [done .. |].
      by intros [? | ?]%elem_of_cons.
Qed.

(** When every session that is stored is closed, in any order and whatever
    else is closed along with them, the registry is empty afterwards, also
    when the remote ended some of the streams with a status that is not
    OK. *)
Theorem closing_every_session_empties_the_registry (E : Env) (s : State)
    (ids : list string) :
  (∀ id, is_Some (active_streams_ s !! id) → id ∈ ids) →
  active_streams_ (run E (map CallCloseStream ids) s) = ∅.
Proof.
  intros Hall. apply map_eq. intros id.
  rewrite run_closes, foldl_delete_lookup, lookup_empty.
  case_bool_decide as Hin; [done |].
  destruct (active_streams_ s !! id) eqn:Hid; [| done].
  destruct Hin. apply Hall. by rewrite Hid.
Qed.

Lemma closing_every_session_empties_the_registry_witness :
  (∀ id, is_Some (active_streams_ two_sessions !! id) →
         id ∈ ["s2"; "nobody"; "s1"]) ∧
  size (active_streams_ two_sessions) = 2 ∧
  active_streams_
    (run unreachable (map CallCloseStream ["s2"; "nobody"; "s1"]) two_sessions)
  = ∅.
Proof.
  assert (Hall : ∀ id, is_Some (active_streams_ two_sessions !! id) →
                       id ∈ ["s2"; "nobody"; "s1"]).
  { intros id. change (active_streams_ two_sessions)
      with (<["s2" := {| context := 1; stream := 1; active := true;
                         session_id := "s2" |}]>
              (<["s1" := first_context]> (∅ : gmap string StreamContext))).
    rewrite !lookup_insert. repeat case_decide; subst.
    - intros _. by left.
    - intros _. by do 2 right; left.
    - rewrite lookup_empty. by intros [? ?]. }
  split; [exact Hall |]. split; [vm_compute; reflexivity |].
  exact (closing_every_session_empties_the_registry unreachable two_sessions
           _ Hall).
Defined.

(** * A reader and the mutex *)

Lemma loop_turn_unread (E : Env) (it : StreamContext) (response : CudaResponse)
    (rest : list CudaResponse) (s : State) :
  unread E (stream it) s = response :: rest →
  unread E (stream it) (loop_turn E it response s) = rest.
Proof.
  unfold unread, loop_turn. intros Hs.
  assert (Hdrop :
    drop (S (default 0 (consumed s !! stream it))) (env_responses E (stream it))
    = rest).
  { rewrite <- Nat.add_1_r, <- drop_drop, Hs. done. }
  destruct (response_callback_ _); simpl; by rewrite lookup_insert_eq.
Qed.

Lemma readStreamResponses_as_loop (E : Env) (id : string) (s : State)
    (it : StreamContext) :
  active_streams_ s !! id = Some it →
  readStreamResponses E id s
  = reader_leaves E it (read_loop E it (unread E (stream it) s) s).
Proof. intros Hit. unfold readStreamResponses. by rewrite Hit. Qed.

Lemma reader_turns (E : Env) (id : string) (it : StreamContext) :
  active it = true →
  ∀ incoming s,
    unread E (stream it) s = incoming →
    (∀ k w', k ≤ length incoming →
       remote_acts_n E k {| object := s; reading := Some (id, it) |} = Some w' →
       reading w' = Some (id, it)) ∧
    remote_acts_n E (S (length incoming))
      {| object := s; reading := Some (id, it) |}
    = Some {| object := reader_leaves E it (read_loop E it incoming s);
              reading := None |}.
Proof.
  intros Hact. induction incoming as [|response rest IH]; intros s Hs.
  - split.
    + intros k w' Hk. assert (k = 0) as -> by (simpl in Hk; lia).
      by intros [= <-].
    + simpl. unfold remote_acts. simpl. by rewrite Hs, Hact.
  - destruct (IH (loop_turn E it response s)
                (loop_turn_unread E it response rest s Hs)) as [IHk IHn].
    split.
    + intros [|k] w' Hk; [by intros [= <-] |].
      change (remote_acts_n E (S k)
                {| object := s; reading := Some (id, it) |})
        with (match remote_acts E {| object := s; reading := Some (id, it) |}
              with
              | Some w1 => remote_acts_n E k w1
              | None => None
              end).
      unfold remote_acts. cbn [reading object].
      rewrite Hs. apply IHk. simpl in Hk. lia.
    + change (remote_acts_n E (S (length (response :: rest)))
                {| object := s; reading := Some (id, it) |})
        with (match remote_acts E {| object := s; reading := Some (id, it) |}
              with
              | Some w1 => remote_acts_n E (S (length rest)) w1
              | None => None
              end).
      unfold remote_acts. cbn [reading object]. rewrite Hs, IHn.
      simpl. by rewrite Hact.
Qed.

(** A reader thread that has gone into [Read] with the mutex keeps the
    mutex for as long as the remote sends: after each of the messages that
    the stream has still to bring the reader is waiting in [Read] again.
    When the stream ends after them, the reader finishes, reports and gives
    the mutex up, and the object is then in the state that the run of
    [readStreamResponses] in one step gives. *)
Theorem reader_holds_mutex_to_the_end (E : Env) (s : State) (id : string)
    (it : StreamContext) :
  active_streams_ s !! id = Some it → active it = true →
  let w := {| object := s; reading := Some (id, it) |} in
  let n := length (unread E (stream it) s) in
  (∀ k w', k ≤ n → remote_acts_n E k w = Some w' →
     reading w' = Some (id, it)) ∧
  remote_acts_n E (S n) w
  = Some {| object := readStreamResponses E id s; reading := None |}.
Proof.
  intros Hit Hact w n.
  rewrite (readStreamResponses_as_loop E id s it Hit).
  by apply reader_turns.
Qed.

Lemma reader_holds_mutex_to_the_end_witness :
  let s := setResponseCallback 5 (set_threads [] one_session) in
  let w := {| object := s; reading := Some ("s1", first_context) |} in
  (active_streams_ s !! "s1" = Some first_context ∧
   active first_context = true) ∧
  length (unread remote (stream first_context) s) = 2 ∧
  (∀ k w', k ≤ 2 → remote_acts_n remote k w = Some w' →
     call remote (CallCloseStream "s1") w' = None) ∧
  remote_acts_n remote 3 w
  = Some {| object := readStreamResponses remote "s1" s; reading := None |}.
Proof.
  assert (Hit :
    active_streams_ (setResponseCallback 5 (set_threads [] one_session))
      !! "s1" = Some first_context) by (vm_compute; reflexivity).
  destruct (reader_holds_mutex_to_the_end remote _ "s1" first_context
              Hit eq_refl) as [Hheld Hend].
  split; [split; [exact Hit | reflexivity] |].
  split; [vm_compute; reflexivity |].
  split; [| exact Hend].
  intros k w' Hk Hw'. unfold call. by rewrite (Hheld k w' Hk Hw').
Defined.
